(** * openapi-typescript: the transform orchestration engine

    A shallow embedding of [transformAll] (src/transform/index.ts) and of
    [transformSchema] (packages/openapi-typescript/src/transform/index.ts),
    together with the fragment of the JavaScript runtime both rely on:
    strings and [String.prototype.trim], property access, truthiness,
    [Object.keys] / [Object.entries], insertion-ordered records. *)

From Stdlib Require Import List NArith ZArith Bool String Ascii Lia DecimalString Sorted.
Import ListNotations.
Open Scope list_scope.

(* ================================================================== *)
(** ** JavaScript runtime fragment *)
(* ================================================================== *)

Module JS.

(** A JavaScript string is a sequence of UTF-16 code units. *)
Definition jsstring := list N.

(** An ASCII literal of the source text, as a JavaScript string. *)
Definition lit (s : string) : jsstring :=
  map N_of_ascii (list_ascii_of_string s).

Definition dquote : jsstring := [34%N].
Definition nl : jsstring := [10%N].

Fixpoint jseqb (a b : jsstring) : bool :=
  match a, b with
  | [], [] => true
  | x :: a', y :: b' => N.eqb x y && jseqb a' b'
  | _, _ => false
  end.

(** Decimal rendering of an array index, as [Object.keys] produces it. *)
Definition index_key (i : nat) : jsstring :=
  lit (NilEmpty.string_of_uint (Nat.to_uint i)).

(** WhiteSpace and LineTerminator code points of ECMAScript, the characters
    [String.prototype.trim] removes: TAB, LF, VT, FF, CR, SP, NBSP, U+1680,
    U+2000..U+200A, U+2028, U+2029, U+202F, U+205F, U+3000 and U+FEFF. *)
Definition is_whitespace (c : N) : bool :=
  ((9 <=? c) && (c <=? 13) || (c =? 32) || (c =? 160) || (c =? 5760)
   || (8192 <=? c) && (c <=? 8202) || (c =? 8232) || (c =? 8233)
   || (c =? 8239) || (c =? 8287) || (c =? 12288) || (c =? 65279))%N.

Fixpoint trimStart (s : jsstring) : jsstring :=
  match s with
  | c :: r => if is_whitespace c then trimStart r else s
  | [] => []
  end.

Definition trimEnd (s : jsstring) : jsstring := rev (trimStart (rev s)).

Definition trim (s : jsstring) : jsstring := trimEnd (trimStart s).

(** A string has no leading (trailing) whitespace when its first (last)
    code unit, if any, is not a whitespace character. *)
Definition no_leading_ws (s : jsstring) : Prop :=
  match s with
  | c :: _ => is_whitespace c = false
  | [] => True
  end.

Definition no_trailing_ws (s : jsstring) : Prop := no_leading_ws (rev s).

(** Values of a decoded document (type [any] in the source).  The pairs of
    an object are its own enumerable properties in the order [Object.keys]
    lists them.  The engine only tests numbers for truthiness; they are
    modelled by integers. *)
#[local] Unset Elimination Schemes.
Inductive value : Type :=
| VUndefined
| VNull
| VBool (b : bool)
| VNum (n : Z)
| VStr (s : jsstring)
| VArr (l : list value)
| VObj (l : list (jsstring * value)).
#[local] Set Elimination Schemes.

(** Results of code that may throw a [TypeError]. *)
Inductive result (A : Type) : Type :=
| Ok (a : A)
| TypeError.
Arguments Ok {A} a.
Arguments TypeError {A}.

Definition bind {A B} (m : result A) (f : A -> result B) : result B :=
  match m with
  | Ok a => f a
  | TypeError => TypeError
  end.

(** ToBoolean. *)
Definition truthy (v : value) : bool :=
  match v with
  | VUndefined | VNull => false
  | VBool b => b
  | VNum n => negb (n =? 0)%Z
  | VStr s => match s with [] => false | _ => true end
  | VArr _ | VObj _ => true
  end.

Definition nullish (v : value) : bool :=
  match v with
  | VUndefined | VNull => true
  | _ => false
  end.

Fixpoint assoc {A} (k : jsstring) (l : list (jsstring * A)) : option A :=
  match l with
  | [] => None
  | (k', a) :: r => if jseqb k k' then Some a else assoc k r
  end.

(** [v.name] for a property name that is not defined on a prototype (all
    the names the engine reads are of that kind): a [TypeError] on
    [undefined] and [null], the own property of an object, [undefined]
    everywhere else. *)
Definition get_named (v : value) (name : jsstring) : result value :=
  match v with
  | VUndefined | VNull => TypeError
  | VObj l => match assoc name l with
              | Some x => Ok x
              | None => Ok VUndefined
              end
  | _ => Ok VUndefined
  end.

Definition get (v : value) (name : string) : result value :=
  get_named v (lit name).

Fixpoint indexed {A} (i : nat) (l : list A) : list (jsstring * A) :=
  match l with
  | [] => []
  | a :: r => (index_key i, a) :: indexed (S i) r
  end.

(** [Object.entries(v)]. *)
Definition Object_entries (v : value) : result (list (jsstring * value)) :=
  match v with
  | VUndefined | VNull => TypeError
  | VBool _ | VNum _ => Ok []
  | VStr s => Ok (indexed 0 (map (fun c => VStr [c]) s))
  | VArr l => Ok (indexed 0 l)
  | VObj l => Ok l
  end.

(** [Object.keys(v)]. *)
Definition Object_keys (v : value) : result (list jsstring) :=
  bind (Object_entries v) (fun es => Ok (map fst es)).

(** What [v.name], [Object.entries(v)] and [Object.keys(v)] evaluate to
    when they do not throw. *)
Definition prop (v : value) (name : string) : value :=
  match get v name with
  | Ok x => x
  | TypeError => VUndefined
  end.

Definition entriesOf (v : value) : list (jsstring * value) :=
  match Object_entries v with
  | Ok es => es
  | TypeError => []
  end.

Definition keysOf (v : value) : list jsstring := map fst (entriesOf v).

(** [new Set(keys)]: the distinct elements in first-insertion order. *)
Fixpoint new_Set (l : list jsstring) : list jsstring :=
  match l with
  | [] => []
  | k :: r => k :: filter (fun k' => negb (jseqb k k')) (new_Set r)
  end.

(** A record [Record<string, A>] built by assignments: own properties in
    insertion order (the order of [Object.keys] for names that are not
    array indices, the only names the engine assigns). *)
Definition record (A : Type) := list (jsstring * A).

(** [r[k] = a]. *)
Fixpoint set {A} (k : jsstring) (a : A) (r : record A) : record A :=
  match r with
  | [] => [(k, a)]
  | (k', a') :: r' => if jseqb k k' then (k, a) :: r' else (k', a') :: set k a r'
  end.

(** The decimal digits, the number a string of digits writes and the
    decimal rendering of a number. *)
Definition digit (c : N) : bool := ((48 <=? c) && (c <=? 57))%N.

Definition decimalValue (s : jsstring) : N :=
  fold_left (fun n c => (10 * n + (c - 48))%N) s 0%N.

Definition decimal (n : N) : jsstring :=
  lit (NilEmpty.string_of_uint (N.to_uint n)).

(** An array index: the canonical decimal string of an integer below
    [2^32 - 1].  [Some n] for the index [n], [None] for every other name. *)
Definition arrayIndex (k : jsstring) : option N :=
  let n := decimalValue k in
  if forallb digit k && jseqb (decimal n) k && (n <? 4294967295)%N
  then Some n else None.

(** The place of a new own property: array indices come first, in
    ascending order, before every other name; the other names keep the
    order of their creation. *)
Definition precedes (k k' : jsstring) : bool :=
  match arrayIndex k with
  | Some n => match arrayIndex k' with
              | Some n' => (n <? n')%N
              | None => true
              end
  | None => false
  end.

(** [o[k] = a] on a plain object whose names may be array indices, the
    pairs being kept in the order [Object.keys] lists them. *)
Fixpoint own_set {A} (k : jsstring) (a : A) (r : record A) : record A :=
  match r with
  | [] => [(k, a)]
  | (k', a') :: r' =>
      if jseqb k k' then (k, a) :: r'
      else if precedes k k' then (k, a) :: (k', a') :: r'
      else (k', a') :: own_set k a r'
  end.

(** The assignments [o[k] = a] of a list of pairs, one after the other. *)
Definition assign_all {A} (target : record A) (pairs : list (jsstring * A))
  : record A :=
  fold_left (fun r ka => own_set (fst ka) (snd ka) r) pairs target.

(** [r[k] += s] on a record of strings; an absent property reads as
    [undefined], which concatenation renders as the text "undefined". *)
Definition append_to (k : jsstring) (s : jsstring) (r : record jsstring)
  : record jsstring :=
  match assoc k r with
  | Some old => set k (old ++ s) r
  | None => set k (lit "undefined" ++ s) r
  end.

(** [for (const x of l) body], threading the loop state. *)
Fixpoint for_of {A S} (l : list A) (body : A -> S -> result S) (s : S)
  : result S :=
  match l with
  | [] => Ok s
  | x :: r => bind (body x s) (for_of r body)
  end.

End JS.

Import JS.

Notation "x <- m ;; k" := (bind m (fun x => k))
  (at level 61, m at next level, right associativity).

(* ================================================================== *)
(** ** Context, registry and collaborators *)
(* ================================================================== *)

(** One registry entry: [{ operation, pathItem }]. *)
Record RegistryEntry : Type := {
  operation : value;
  pathItem : value
}.

(** The operation registry, [Record<string, { operation; pathItem }>], in
    the order [Object.keys] lists it. *)
Definition registry := record RegistryEntry.

(** Modelled from the spec: [GlobalContext] (declared in types.js, which is
    missing).  The recognised options [version], [immutableTypes] and
    [rawSchema], the additions a nested transform receives ([required],
    [globalParameters], [pathItem]; [None] and [VUndefined] when not set)
    and the options the engine never reads.  The [operations] reference the
    paths emitter receives in its context is modelled by state passing: the
    emitter takes the registry as it is on entry and gives back the
    registry as it leaves it. *)
Record GlobalContext : Type := {
  version : Z;
  immutableTypes : bool;
  rawSchema : bool;
  required : option (list jsstring);
  globalParameters : value;
  ctx_pathItem : value;
  additionalOptions : value
}.

(** [{ ...ctx, required }] *)
Definition with_required (ctx : GlobalContext) (r : list jsstring) : GlobalContext :=
  {| version := version ctx; immutableTypes := immutableTypes ctx;
     rawSchema := rawSchema ctx; required := Some r;
     globalParameters := globalParameters ctx; ctx_pathItem := ctx_pathItem ctx;
     additionalOptions := additionalOptions ctx |}.

(** [{ ...ctx, globalParameters }] *)
Definition with_globalParameters (ctx : GlobalContext) (g : value) : GlobalContext :=
  {| version := version ctx; immutableTypes := immutableTypes ctx;
     rawSchema := rawSchema ctx; required := required ctx;
     globalParameters := g; ctx_pathItem := ctx_pathItem ctx;
     additionalOptions := additionalOptions ctx |}.

(** [{ ...ctx, pathItem }] *)
Definition with_pathItem (ctx : GlobalContext) (p : value) : GlobalContext :=
  {| version := version ctx; immutableTypes := immutableTypes ctx;
     rawSchema := rawSchema ctx; required := required ctx;
     globalParameters := globalParameters ctx; ctx_pathItem := p;
     additionalOptions := additionalOptions ctx |}.

(** The functions [transformAll] imports (utils.js, headers.js, operation.js,
    paths.js, request.js, responses.js, schema.js: none of them is part of
    the engine).  They are parameters of the development; each is a function
    of its arguments, and the paths emitter also returns the registry. *)
Record LeafEmitters : Type := {
  tsReadonly : bool -> jsstring;
  comment : value -> jsstring;
  transformHeaderObjMap : value -> GlobalContext -> jsstring;
  operationRequestType : jsstring -> value -> GlobalContext -> jsstring;
  queryStringType : jsstring -> value -> GlobalContext -> jsstring;
  transformOperationObj : value -> GlobalContext -> jsstring;
  getOperationId : value -> jsstring -> jsstring -> jsstring;
  getOperationIdFromPath : jsstring -> jsstring;
  transformPathsObj : value -> GlobalContext -> registry -> jsstring * registry;
  transformRequestBodies : value -> GlobalContext -> jsstring;
  getResponseTypes : jsstring -> value -> jsstring;
  transformResponsesObj : value -> GlobalContext -> jsstring;
  transformSchemaObjMap : value -> GlobalContext -> jsstring
}.

Definition Output := record jsstring.

(* ================================================================== *)
(** ** src/transform/index.ts *)
(* ================================================================== *)

Definition httpMethods : list jsstring :=
  map lit ["get"; "put"; "post"; "delete"; "options"; "head"; "patch"; "trace"]%string.

(** [Array.prototype.includes] on an array of strings. *)
Definition includes (l : list jsstring) (x : jsstring) : bool :=
  existsb (jseqb x) l.

(** [(schema.components && schema.components.parameters) || schema.parameters] *)
Definition globalParametersOf (schema : value) : result value :=
  components <- get schema "components" ;;
  conj <- (if truthy components then get components "parameters" else Ok components) ;;
  if truthy conj then Ok conj else get schema "parameters".

(** The container template of the components section:
    [`  ${readonly}name: {\n    ${body}\n  }\n`]. *)
Definition container (readonly : jsstring) (name : string) (body : jsstring) : jsstring :=
  lit "  " ++ readonly ++ lit name ++ lit ": {" ++ nl ++ lit "    " ++ body
  ++ nl ++ lit "  }" ++ nl.

(** The entry template of the operations section:
    [`  ${readonly}"${id}": {\n    ${body}\n  }\n`]. *)
Definition operationEntry (readonly id body : jsstring) : jsstring :=
  lit "  " ++ readonly ++ dquote ++ id ++ dquote ++ lit ": {" ++ nl ++ lit "    "
  ++ body ++ nl ++ lit "  }" ++ nl.

(** The record template of the express section. *)
Definition expressRecord (id responses request query : jsstring) : jsstring :=
  lit " " ++ dquote ++ id ++ dquote ++ lit ": {" ++ nl
  ++ lit "    responses: " ++ responses ++ lit ";" ++ nl
  ++ lit "    request: expressRequest<Request<" ++ request ++ lit ">, SLocals, "
  ++ query ++ lit ">;" ++ nl
  ++ lit "    response: Response<express<SLocals, RLocals>[" ++ dquote ++ id ++ dquote
  ++ lit "][" ++ dquote ++ lit "responses" ++ dquote ++ lit "]>;" ++ nl
  ++ lit "    handler: (req: express<SLocals, RLocals>[" ++ dquote ++ id ++ dquote
  ++ lit "][" ++ dquote ++ lit "request" ++ dquote
  ++ lit "], res: express<SLocals, RLocals>[" ++ dquote ++ id ++ dquote
  ++ lit "][" ++ dquote ++ lit "response" ++ dquote
  ++ lit "]) => void | Promise<void>;" ++ nl
  ++ lit "}" ++ nl.

(** The templates of the handlers section. *)
Definition handlersOpen (name : jsstring) : jsstring :=
  lit " " ++ name ++ lit ": {" ++ nl.

Definition handlersMember (method id : jsstring) : jsstring :=
  lit " " ++ method ++ lit ": express<SLocals, RLocals>[" ++ dquote ++ id ++ dquote
  ++ lit "][" ++ dquote ++ lit "handler" ++ dquote ++ lit "]" ++ nl.

Definition handlersClose : jsstring := lit " }" ++ nl.

Section Engine.

Variable E : LeafEmitters.

(** Lines 17-30: the raw-schema mode.  [Some output] when the function
    returns from inside the switch, [None] when control leaves the block. *)
Definition rawSchemaMode (schema : value) (ctx : GlobalContext) (output : Output)
  : result (option Output) :=
  if rawSchema ctx then
    keys <- Object_keys schema ;;
    let required := new_Set keys in
    if (version ctx =? 2)%Z then
      Ok (Some (set (lit "definitions")
                    (transformSchemaObjMap E schema (with_required ctx required)) output))
    else if (version ctx =? 3)%Z then
      Ok (Some (set (lit "schemas")
                    (transformSchemaObjMap E schema (with_required ctx required)) output))
    else Ok None
  else Ok None.

(** Lines 32-40: the paths section and the registry the emitter fills. *)
Definition pathsSection (schema : value) (ctx : GlobalContext)
    (operations : registry) (output : Output) : result (Output * registry) :=
  let output := set (lit "paths") [] output in
  paths <- get schema "paths" ;;
  if truthy paths then
    g <- globalParametersOf schema ;;
    let (text, operations) :=
      transformPathsObj E paths (with_globalParameters ctx g) operations in
    Ok (append_to (lit "paths") text output, operations)
  else Ok (output, operations).

(** One schema-map section of version 2, [required] being the keys of the
    collection itself. *)
Definition schemaMapSection (name : string) (collection : value)
    (ctx : GlobalContext) (output : Output) : result Output :=
  if truthy collection then
    keys <- Object_keys collection ;;
    Ok (set (lit name)
            (transformSchemaObjMap E collection (with_required ctx (new_Set keys)))
            output)
  else Ok output.

(** Lines 43-65: [case 2]. *)
Definition version2 (schema : value) (ctx : GlobalContext) (output : Output)
  : result Output :=
  definitions <- get schema "definitions" ;;
  output <- schemaMapSection "definitions" definitions ctx output ;;
  parameters <- get schema "parameters" ;;
  output <- schemaMapSection "parameters" parameters ctx output ;;
  responses <- get schema "responses" ;;
  if truthy responses then
    Ok (set (lit "responses") (transformResponsesObj E responses ctx) output)
  else Ok output.

(** Lines 66-112: [case 3]. *)
Definition version3 (readonly : jsstring) (schema : value) (ctx : GlobalContext)
    (output : Output) : result Output :=
  let output := set (lit "components") [] output in
  components <- get schema "components" ;;
  if truthy components then
    schemas <- get components "schemas" ;;
    output <-
      (if truthy schemas then
         keys <- Object_keys schemas ;;
         Ok (append_to (lit "components")
               (container readonly "schemas"
                  (transformSchemaObjMap E schemas (with_required ctx (new_Set keys))))
               output)
       else Ok output) ;;
    responses <- get components "responses" ;;
    let output :=
      if truthy responses then
        append_to (lit "components")
          (container readonly "responses" (transformResponsesObj E responses ctx))
          output
      else output in
    parameters <- get components "parameters" ;;
    output <-
      (if truthy parameters then
         keys <- Object_keys parameters ;;
         Ok (append_to (lit "components")
               (container readonly "parameters"
                  (transformSchemaObjMap E parameters (with_required ctx (new_Set keys))))
               output)
       else Ok output) ;;
    requestBodies <- get components "requestBodies" ;;
    let output :=
      if truthy requestBodies then
        append_to (lit "components")
          (container readonly "requestBodies"
             (transformRequestBodies E requestBodies ctx))
          output
      else output in
    headers <- get components "headers" ;;
    let output :=
      if truthy headers then
        append_to (lit "components")
          (container readonly "headers"
             (transformHeaderObjMap E headers (with_required ctx (new_Set []))))
          output
      else output in
    Ok output
  else Ok output.

(** Lines 42-113: [switch (ctx.version)]. *)
Definition versionSwitch (readonly : jsstring) (schema : value)
    (ctx : GlobalContext) (output : Output) : result Output :=
  if (version ctx =? 2)%Z then version2 schema ctx output
  else if (version ctx =? 3)%Z then version3 readonly schema ctx output
  else Ok output.

(** [operations[id]], destructured: a [TypeError] on [undefined]. *)
Definition registryGet (operations : registry) (id : jsstring) : result RegistryEntry :=
  match assoc id operations with
  | Some e => Ok e
  | None => TypeError
  end.

(** The context of the per-operation helpers:
    [{ ...ctx, pathItem, globalParameters }]. *)
Definition operationContext (ctx : GlobalContext) (e : RegistryEntry) (g : value)
  : GlobalContext :=
  with_globalParameters (with_pathItem ctx (pathItem e)) g.

(** Lines 115-127. *)
Definition operationsSection (readonly : jsstring) (schema : value)
    (ctx : GlobalContext) (operations : registry) (output : Output) : result Output :=
  let output := set (lit "operations") [] output in
  if negb (List.length (map fst operations) =? 0)%nat then
    for_of (map fst operations)
      (fun id output =>
         e <- registryGet operations id ;;
         description <- get (operation e) "description" ;;
         let output :=
           if truthy description
           then append_to (lit "operations") (comment E description) output
           else output in
         g <- globalParametersOf schema ;;
         Ok (append_to (lit "operations")
               (operationEntry readonly id
                  (transformOperationObj E (operation e) (operationContext ctx e g)))
               output))
      output
  else Ok output.

(** Lines 154-162: the path-based handlers. *)
Definition handlersSection (schema : value) (output : Output) : result Output :=
  let output := set (lit "handlers") [] output in
  paths <- get schema "paths" ;;
  pathEntries <- Object_entries paths ;;
  for_of pathEntries
    (fun '(path, methods) output =>
       let output :=
         append_to (lit "handlers") (handlersOpen (getOperationIdFromPath E path)) output in
       methodEntries <- Object_entries methods ;;
       output <-
         for_of methodEntries
           (fun '(method, op) output =>
              if includes httpMethods method then
                Ok (append_to (lit "handlers")
                      (handlersMember method (getOperationId E op method path)) output)
              else Ok output)
           output ;;
       Ok (append_to (lit "handlers") handlersClose output))
    output.

(** Lines 129-163. *)
Definition expressSection (schema : value) (ctx : GlobalContext)
    (operations : registry) (output : Output) : result Output :=
  let output := set (lit "express") [] output in
  if negb (List.length (map fst operations) =? 0)%nat then
    output <-
      for_of (map fst operations)
        (fun id output =>
           e <- registryGet operations id ;;
           g <- globalParametersOf schema ;;
           let typeArgs := operationContext ctx e g in
           responses <- get (operation e) "responses" ;;
           Ok (append_to (lit "express")
                 (expressRecord id
                    (if truthy responses then getResponseTypes E id responses
                     else lit "void")
                    (operationRequestType E id (operation e) typeArgs)
                    (queryStringType E id (operation e) typeArgs))
                 output))
        output ;;
    handlersSection schema output
  else Ok output.

(** Lines 165-170: trim every textual value. *)
Definition cleanup (output : Output) : result Output :=
  for_of (map fst output)
    (fun k output =>
       match assoc k output with
       | Some s => Ok (set k (trim s) output)
       | None => Ok output
       end)
    output.

Definition transformAll (schema : value) (ctx : GlobalContext) : result Output :=
  let readonly := tsReadonly E (immutableTypes ctx) in
  let output : Output := [] in
  let operations : registry := [] in
  returned <- rawSchemaMode schema ctx output ;;
  match returned with
  | Some output => Ok output
  | None =>
      po <- pathsSection schema ctx operations output ;;
      let (output, operations) := po in
      output <- versionSwitch readonly schema ctx output ;;
      output <- operationsSection readonly schema ctx operations output ;;
      output <- expressSection schema ctx operations output ;;
      cleanup output
  end.

End Engine.

(* ================================================================== *)
(** ** packages/openapi-typescript/src/transform/index.ts *)
(* ================================================================== *)

(** The functions [transformSchema] imports (components-object.js,
    express-object.js, paths-object.js, webhooks-object.js). *)
Record SectionTransformers : Type := {
  transformComponentsObject : value -> GlobalContext -> jsstring;
  transformExpress : value -> GlobalContext -> Output;
  transformPathsObject : value -> GlobalContext -> jsstring;
  transformWebhooksObject : value -> GlobalContext -> jsstring
}.

(** [Object.assign(target, source)] on records. *)
Definition Object_assign (target source : Output) : Output :=
  assign_all target source.

Definition transformSchema (T : SectionTransformers) (schema : value)
    (ctx : GlobalContext) : result Output :=
  if negb (truthy schema) then Ok []
  else
    let output : Output := [] in
    paths <- get schema "paths" ;;
    let output :=
      if truthy paths then set (lit "paths") (transformPathsObject T paths ctx) output
      else set (lit "paths") [] output in
    webhooks <- get schema "webhooks" ;;
    let output :=
      if truthy webhooks
      then set (lit "webhooks") (transformWebhooksObject T webhooks ctx) output
      else set (lit "webhooks") [] output in
    components <- get schema "components" ;;
    let output :=
      if truthy components
      then set (lit "components") (transformComponentsObject T components ctx) output
      else set (lit "components") [] output in
    paths <- get schema "paths" ;;
    let output :=
      if truthy paths then Object_assign output (transformExpress T paths ctx)
      else output in
    Ok output.

(* ================================================================== *)
(** ** The sections in closed form *)
(* ================================================================== *)

Section Sections.

Variable E : LeafEmitters.
Variable schema : value.
Variable ctx : GlobalContext.

Definition readonlyOf : jsstring := tsReadonly E (immutableTypes ctx).

(** The value of
    [(schema.components && schema.components.parameters) || schema.parameters]. *)
Definition globalParams : value :=
  let components := prop schema "components" in
  let conj := if truthy components then prop components "parameters" else components in
  if truthy conj then conj else prop schema "parameters".

(** What the paths emitter returns on the document's paths node, started on
    the empty registry; nothing when the document has no paths node. *)
Definition pathsResult : jsstring * registry :=
  let paths := prop schema "paths" in
  if truthy paths
  then transformPathsObj E paths (with_globalParameters ctx globalParams) []
  else ([], []).

Definition pathsText : jsstring := fst pathsResult.
Definition registryOf : registry := snd pathsResult.

(** A collection is rendered by the schema-map emitter with [required] the
    keys of the collection. *)
Definition schemaMapOf (collection : value) : jsstring :=
  transformSchemaObjMap E collection (with_required ctx (new_Set (keysOf collection))).

(** A block of the components section for a sub-collection that is there. *)
Definition blockIf (name : string) (collection : value) (body : jsstring) : jsstring :=
  if truthy collection then container readonlyOf name body else [].

Definition componentsText : jsstring :=
  let components := prop schema "components" in
  if truthy components then
    blockIf "schemas" (prop components "schemas")
      (schemaMapOf (prop components "schemas"))
    ++ blockIf "responses" (prop components "responses")
         (transformResponsesObj E (prop components "responses") ctx)
    ++ blockIf "parameters" (prop components "parameters")
         (schemaMapOf (prop components "parameters"))
    ++ blockIf "requestBodies" (prop components "requestBodies")
         (transformRequestBodies E (prop components "requestBodies") ctx)
    ++ blockIf "headers" (prop components "headers")
         (transformHeaderObjMap E (prop components "headers") (with_required ctx []))
  else [].

Definition sectionIf (name : string) (collection : value) (body : jsstring) : Output :=
  if truthy collection then [(lit name, body)] else [].

(** The names of the sections the version switch may add. *)
Definition versionKeys : list jsstring :=
  map lit ["definitions"; "parameters"; "responses"; "components"]%string.

(** The sections the version switch adds, in the order it adds them. *)
Definition versionSections : Output :=
  if (version ctx =? 2)%Z then
    sectionIf "definitions" (prop schema "definitions")
      (schemaMapOf (prop schema "definitions"))
    ++ sectionIf "parameters" (prop schema "parameters")
         (schemaMapOf (prop schema "parameters"))
    ++ sectionIf "responses" (prop schema "responses")
         (transformResponsesObj E (prop schema "responses") ctx)
  else if (version ctx =? 3)%Z then [(lit "components", componentsText)]
  else [].

(** The entry of one registered operation in the operations section. *)
Definition operationText (id : jsstring) (e : RegistryEntry) : jsstring :=
  let description := prop (operation e) "description" in
  (if truthy description then comment E description else [])
  ++ operationEntry readonlyOf id
       (transformOperationObj E (operation e) (operationContext ctx e globalParams)).

(** The record of one registered operation in the express section. *)
Definition expressText (id : jsstring) (e : RegistryEntry) : jsstring :=
  let typeArgs := operationContext ctx e globalParams in
  let responses := prop (operation e) "responses" in
  expressRecord id
    (if truthy responses then getResponseTypes E id responses else lit "void")
    (operationRequestType E id (operation e) typeArgs)
    (queryStringType E id (operation e) typeArgs).

(** One text per key of the registry, in the order of the keys, each key
    read back through the registry. *)
Definition perOperation (f : jsstring -> RegistryEntry -> jsstring)
    (operations : registry) : jsstring :=
  flat_map (fun id => match assoc id operations with
                      | Some e => f id e
                      | None => []
                      end)
           (map fst operations).

Definition operationsText : jsstring := perOperation operationText registryOf.
Definition expressSectionText : jsstring := perOperation expressText registryOf.

(** The members of one path in the handlers section: the keys of the Path
    Item that are HTTP methods, in the order of the Path Item. *)
Definition handlerMembers (path : jsstring) (methods : value) : jsstring :=
  flat_map (fun mo => handlersMember (fst mo) (getOperationId E (snd mo) (fst mo) path))
           (filter (fun mo => includes httpMethods (fst mo)) (entriesOf methods)).

Definition handlersEntry (pm : jsstring * value) : jsstring :=
  handlersOpen (getOperationIdFromPath E (fst pm))
  ++ handlerMembers (fst pm) (snd pm) ++ handlersClose.

Definition handlersText : jsstring :=
  flat_map handlersEntry (entriesOf (prop schema "paths")).

Definition handlersSections : Output :=
  match registryOf with
  | [] => []
  | _ :: _ => [(lit "handlers", handlersText)]
  end.

(** Every section of full-document processing before the final cleanup. *)
Definition documentSections : Output :=
  (lit "paths", pathsText) :: versionSections
  ++ [(lit "operations", operationsText); (lit "express", expressSectionText)]
  ++ handlersSections.

Definition trimmed (output : Output) : Output :=
  map (fun kv => (fst kv, trim (snd kv))) output.

(** No name occurs twice in the record. *)
Definition distinctNames (out : Output) : Prop := NoDup (map fst out).

(** A condition under which the engine itself throws nothing: the document
    is neither [undefined] nor [null], no registered operation is, and,
    when the registry is not empty, no Path Item is. *)
Definition wellFormed : bool :=
  negb (nullish schema)
  && forallb (fun ie => negb (nullish (operation (snd ie)))) registryOf
  && match registryOf with
     | [] => true
     | _ :: _ => forallb (fun pm => negb (nullish (snd pm)))
                         (entriesOf (prop schema "paths"))
     end.

(** The raw-schema block returns from the function. *)
Definition shortCircuits : bool :=
  rawSchema ctx && ((version ctx =? 2)%Z || (version ctx =? 3)%Z).

End Sections.

(* ================================================================== *)
(** ** The sections as the specification words them *)
(* ================================================================== *)

Section Specified.

Variable E : LeafEmitters.
Variable schema : value.
Variable ctx : GlobalContext.

(** Specification, section 4.3: every sub-collection of the components
    section, the responses and the request bodies too, rendered with
    [required] the keys of the sub-collection, the headers with the empty
    set; the blocks concatenated in the fixed order. *)
Definition componentsSpecified : jsstring :=
  let components := prop schema "components" in
  let own (c : value) := with_required ctx (new_Set (keysOf c)) in
  blockIf E ctx "schemas" (prop components "schemas")
    (transformSchemaObjMap E (prop components "schemas") (own (prop components "schemas")))
  ++ blockIf E ctx "responses" (prop components "responses")
       (transformResponsesObj E (prop components "responses")
          (own (prop components "responses")))
  ++ blockIf E ctx "parameters" (prop components "parameters")
       (transformSchemaObjMap E (prop components "parameters")
          (own (prop components "parameters")))
  ++ blockIf E ctx "requestBodies" (prop components "requestBodies")
       (transformRequestBodies E (prop components "requestBodies")
          (own (prop components "requestBodies")))
  ++ blockIf E ctx "headers" (prop components "headers")
       (transformHeaderObjMap E (prop components "headers") (with_required ctx [])).

(** Specification, section 4.4: within a path, one member per method of
    the closed set that the Path Item has, in the canonical order of the
    set. *)
Definition handlerMembersCanonical (path : jsstring) (methods : value) : jsstring :=
  flat_map (fun method =>
              match assoc method (entriesOf methods) with
              | Some op => handlersMember method (getOperationId E op method path)
              | None => []
              end)
           httpMethods.

Definition handlersSpecified : jsstring :=
  flat_map (fun pm => handlersOpen (getOperationIdFromPath E (fst pm))
                      ++ handlerMembersCanonical (fst pm) (snd pm) ++ handlersClose)
           (entriesOf (prop schema "paths")).

(** Specification, sections 3 and 4.4: one record per operation, in the
    order the operations were first discovered while walking the paths. *)
Definition expressSpecified (discovered : registry) : jsstring :=
  flat_map (fun id => match assoc id (rev discovered) with
                      | Some e => expressText E schema ctx id e
                      | None => []
                      end)
           (new_Set (map fst discovered)).

End Specified.

(** Two families of collaborators that return the same results on the same
    arguments. *)
Definition sameResults (E1 E2 : LeafEmitters) : Prop :=
  (forall b, tsReadonly E1 b = tsReadonly E2 b)
  /\ (forall v, comment E1 v = comment E2 v)
  /\ (forall v c, transformHeaderObjMap E1 v c = transformHeaderObjMap E2 v c)
  /\ (forall i v c, operationRequestType E1 i v c = operationRequestType E2 i v c)
  /\ (forall i v c, queryStringType E1 i v c = queryStringType E2 i v c)
  /\ (forall v c, transformOperationObj E1 v c = transformOperationObj E2 v c)
  /\ (forall v m p, getOperationId E1 v m p = getOperationId E2 v m p)
  /\ (forall p, getOperationIdFromPath E1 p = getOperationIdFromPath E2 p)
  /\ (forall v c r, transformPathsObj E1 v c r = transformPathsObj E2 v c r)
  /\ (forall v c, transformRequestBodies E1 v c = transformRequestBodies E2 v c)
  /\ (forall i v, getResponseTypes E1 i v = getResponseTypes E2 i v)
  /\ (forall v c, transformResponsesObj E1 v c = transformResponsesObj E2 v c)
  /\ (forall v c, transformSchemaObjMap E1 v c = transformSchemaObjMap E2 v c).

(* ================================================================== *)
(** ** Notions used by the further properties *)
(* ================================================================== *)

(** A string made of whitespace only. *)
Definition whitespace (s : jsstring) : Prop := forallb is_whitespace s = true.

(** The members of the document that full-document processing reads. *)
Definition documentMembers : list string :=
  ["paths"; "components"; "parameters"; "definitions"; "responses"]%string.

(** Two documents, neither of them [undefined] or [null], that have the
    same value for every member the engine reads. *)
Definition sameMembers (s1 s2 : value) : Prop :=
  nullish s1 = false /\ nullish s2 = false
  /\ forall name, In name documentMembers -> prop s1 name = prop s2 name.

(** The keys of a Path Item are distinct and its HTTP methods are written
    in the order of [httpMethods]. *)
Definition canonicalItem (methods : value) : Prop :=
  NoDup (keysOf methods)
  /\ map fst (filter (fun mo => includes httpMethods (fst mo)) (entriesOf methods))
     = filter (fun m => existsb (jseqb m) (keysOf methods)) httpMethods.

(** The names of the sections the version switch adds for a document, in
    the order it adds them. *)
Definition versionNames (schema : value) (ctx : GlobalContext) : list jsstring :=
  if (version ctx =? 2)%Z then
    map lit (filter (fun name => truthy (prop schema name))
                    ["definitions"; "parameters"; "responses"]%string)
  else if (version ctx =? 3)%Z then [lit "components"]
  else [].


(** A name that is not an array index. *)
Definition notIndex (k : jsstring) : bool :=
  match arrayIndex k with
  | None => true
  | Some _ => false
  end.


(* ================================================================== *)
(** ** Sample collaborators and documents *)
(* ================================================================== *)

Module Sample.

(** Renders the [required] set of a context. *)
Definition showRequired (c : GlobalContext) : jsstring :=
  match required c with
  | None => lit "required?"
  | Some keys => lit "required{" ++ flat_map (fun k => k ++ lit ";") keys ++ lit "}"
  end.

Definition operationIdOf (op : value) (method path : jsstring) : jsstring :=
  match prop op "operationId" with
  | VStr id => id
  | _ => method ++ path
  end.

(** Registers the operations of one Path Item, method by method. *)
Definition registerItem (path : jsstring) (item : value) (operations : registry)
  : registry :=
  fold_left
    (fun ops method =>
       match get_named item method with
       | Ok op =>
           if truthy op
           then own_set (operationIdOf op method path)
                        {| operation := op; pathItem := item |} ops
           else ops
       | TypeError => ops
       end)
    httpMethods operations.

Definition walkPaths (paths : value) (operations : registry) : registry :=
  fold_left (fun ops pm => registerItem (fst pm) (snd pm) ops) (entriesOf paths) operations.

Definition emitters : LeafEmitters := {|
  tsReadonly := fun b => if b then lit "readonly " else [];
  comment := fun v => match v with
                      | VStr s => lit "/** " ++ s ++ lit " */" ++ nl
                      | _ => []
                      end;
  transformHeaderObjMap := fun _ c => lit "headers " ++ showRequired c ++ nl;
  operationRequestType := fun id _ _ => id ++ lit "Request";
  queryStringType := fun id _ _ => id ++ lit "Query";
  transformOperationObj := fun _ _ => lit "operation" ++ nl;
  getOperationId := operationIdOf;
  getOperationIdFromPath := fun path => dquote ++ path ++ dquote;
  transformPathsObj := fun paths _ ops => (lit "paths" ++ nl, walkPaths paths ops);
  transformRequestBodies := fun _ c => lit "bodies " ++ showRequired c ++ nl;
  getResponseTypes := fun id _ => id ++ lit "Responses";
  transformResponsesObj := fun _ c => lit "responses " ++ showRequired c ++ nl;
  transformSchemaObjMap := fun _ c => lit "schemas " ++ showRequired c ++ nl
|}.

Definition context (v : Z) (raw : bool) : GlobalContext := {|
  version := v; immutableTypes := false; rawSchema := raw; required := None;
  globalParameters := VUndefined; ctx_pathItem := VUndefined;
  additionalOptions := VUndefined
|}.

Definition obj (l : list (string * value)) : value :=
  VObj (map (fun kv => (lit (fst kv), snd kv)) l).

(** [{ A: {}, B: {} }] *)
Definition flatSchemas : value := obj [("A", obj []); ("B", obj [])]%string.

(** [{}] *)
Definition emptyDocument : value := obj [].

(** [{ components: { responses: { NotFound: {} }, headers: { ETag: {} } } }] *)
Definition componentsDocument : value :=
  obj [("components",
        obj [("responses", obj [("NotFound", obj [])]);
             ("headers", obj [("ETag", obj [])])])]%string.

(** [{ paths: { "/pets": { post: { operationId: "addPet" }, parameters: [],
                           get: { operationId: "getPets", responses: {} } } } }] *)
Definition petsDocument : value :=
  obj [("paths",
        obj [("/pets",
              obj [("post", obj [("operationId", VStr (lit "addPet"))]);
                   ("parameters", VArr []);
                   ("get", obj [("operationId", VStr (lit "getPets"));
                                ("responses", obj [])])])])]%string.

Definition transformers : SectionTransformers := {|
  transformComponentsObject := fun _ _ => lit "components";
  transformExpress := fun _ _ => [(lit "express", lit "express")];
  transformPathsObject := fun _ _ => lit "paths";
  transformWebhooksObject := fun _ _ => lit "webhooks"
|}.

(** [{ paths: { "/pets": { get: { operationId: "getPets" },
                           parameters: [],
                           post: { operationId: "addPet" } } },
       info: { title: "Pets" } }] *)
Definition orderedDocument : value :=
  obj [("paths",
        obj [("/pets",
              obj [("get", obj [("operationId", VStr (lit "getPets"))]);
                   ("parameters", VArr []);
                   ("post", obj [("operationId", VStr (lit "addPet"))])])]);
       ("info", obj [("title", VStr (lit "Pets"))])]%string.

(** The same paths, without the [info] member. *)
Definition orderedDocument' : value :=
  obj [("paths", prop orderedDocument "paths")]%string.

(** [{ paths: { "/b": { get: { operationId: "b" } },
                "/two": { get: { operationId: "2", responses: {} } },
                "/one": { get: { operationId: "1" } } } }] *)
Definition numberedDocument : value :=
  obj [("paths",
        obj [("/b", obj [("get", obj [("operationId", VStr (lit "b"))])]);
             ("/two", obj [("get", obj [("operationId", VStr (lit "2"));
                                        ("responses", obj [])])]);
             ("/one", obj [("get", obj [("operationId", VStr (lit "1"))])])])]%string.

(** Its operations in the order a walk of the paths discovers them. *)
Definition numberedDiscovered : registry :=
  let item (path : string) := prop (prop numberedDocument "paths") path in
  [(lit "b", {| operation := prop (item "/b"%string) "get"; pathItem := item "/b"%string |});
   (lit "2", {| operation := prop (item "/two"%string) "get";
                pathItem := item "/two"%string |});
   (lit "1", {| operation := prop (item "/one"%string) "get";
                pathItem := item "/one"%string |})].

(** Renders the keys of a value. *)
Definition showKeys (v : value) : jsstring :=
  flat_map (fun k => k ++ lit ";") (keysOf v).

(** Collaborators whose text shows the context they are given. *)
Definition probingEmitters : LeafEmitters := {|
  tsReadonly := tsReadonly emitters;
  comment := comment emitters;
  transformHeaderObjMap := transformHeaderObjMap emitters;
  operationRequestType := fun id _ c =>
    id ++ lit "Request item " ++ showKeys (ctx_pathItem c)
    ++ lit " pool " ++ showKeys (globalParameters c);
  queryStringType := fun id _ c =>
    id ++ lit "Query item " ++ showKeys (ctx_pathItem c)
    ++ lit " pool " ++ showKeys (globalParameters c);
  transformOperationObj := fun _ c =>
    lit "item " ++ showKeys (ctx_pathItem c)
    ++ lit " pool " ++ showKeys (globalParameters c) ++ nl;
  getOperationId := getOperationId emitters;
  getOperationIdFromPath := getOperationIdFromPath emitters;
  transformPathsObj := fun paths c ops =>
    (lit "pool " ++ showKeys (globalParameters c) ++ lit " " ++ showRequired c ++ nl,
     walkPaths paths ops);
  transformRequestBodies := transformRequestBodies emitters;
  getResponseTypes := getResponseTypes emitters;
  transformResponsesObj := transformResponsesObj emitters;
  transformSchemaObjMap := transformSchemaObjMap emitters
|}.

(** [{ paths: { "/pets": { get: { operationId: "getPets" } } },
       parameters: { offset: {} },
       components: { parameters: { limit: {} } } }] *)
Definition pooledDocument : value :=
  obj [("paths",
        obj [("/pets", obj [("get", obj [("operationId", VStr (lit "getPets"))])])]);
       ("parameters", obj [("offset", obj [])]);
       ("components", obj [("parameters", obj [("limit", obj [])])])]%string.

(** [{ paths: { "/pets": null } }] with a paths emitter that registers an
    operation all the same. *)
Definition nullItemDocument : value :=
  obj [("paths", obj [("/pets", VNull)])]%string.

Definition eagerEmitters : LeafEmitters := {|
  tsReadonly := tsReadonly emitters;
  comment := comment emitters;
  transformHeaderObjMap := transformHeaderObjMap emitters;
  operationRequestType := operationRequestType emitters;
  queryStringType := queryStringType emitters;
  transformOperationObj := transformOperationObj emitters;
  getOperationId := getOperationId emitters;
  getOperationIdFromPath := getOperationIdFromPath emitters;
  transformPathsObj := fun _ _ ops =>
    ([], set (lit "op") {| operation := obj []; pathItem := VNull |} ops);
  transformRequestBodies := transformRequestBodies emitters;
  getResponseTypes := getResponseTypes emitters;
  transformResponsesObj := transformResponsesObj emitters;
  transformSchemaObjMap := transformSchemaObjMap emitters
|}.

(** [{ definitions: { Pet: {} }, parameters: { limit: {} },
       components: { schemas: { Pet: {} } } }] *)
Definition mixedDocument : value :=
  obj [("definitions", obj [("Pet", obj [])]);
       ("parameters", obj [("limit", obj [])]);
       ("components", obj [("schemas", obj [("Pet", obj [])])])]%string.

(** Section transformers whose express part overrides [paths] and adds
    [express], [handlers] and the array indices [2] and [1]. *)
Definition overridingTransformers : SectionTransformers := {|
  transformComponentsObject := fun _ _ => lit "components";
  transformExpress := fun _ _ =>
    [(lit "1", lit "one"); (lit "2", lit "two"); (lit "express", lit "E");
     (lit "paths", lit "P"); (lit "handlers", lit "H")];
  transformPathsObject := fun _ _ => lit "paths";
  transformWebhooksObject := fun _ _ => lit "webhooks"
|}.

End Sample.

#[local] Arguments lit : simpl never.
#[local] Arguments container : simpl never.
#[local] Arguments operationEntry : simpl never.
#[local] Arguments expressRecord : simpl never.
#[local] Arguments handlersOpen : simpl never.
#[local] Arguments handlersMember : simpl never.
#[local] Arguments handlersClose : simpl never.
#[local] Arguments trim : simpl never.

(* ================================================================== *)
(** ** The model at work *)
(* ================================================================== *)

Example trim_both_ends :
  trim (lit "  a b " ++ nl) = lit "a b".
Proof. reflexivity. Qed.

Example trim_no_break_space :
  trim ([160; 65279] ++ lit "x" ++ [8232; 12288])%N = lit "x".
Proof. reflexivity. Qed.

Example keys_of_array :
  Object_keys (VArr [VNull; VBool true]) = Ok [lit "0"; lit "1"].
Proof. reflexivity. Qed.

Example keys_of_null : Object_keys VNull = TypeError.
Proof. reflexivity. Qed.

Example property_of_string : get (VStr (lit "abc")) "paths" = Ok VUndefined.
Proof. reflexivity. Qed.

Example set_keeps_position :
  set (lit "a") 2 (set (lit "b") 1 (set (lit "a") 0 [])) = [(lit "a", 2); (lit "b", 1)].
Proof. reflexivity. Qed.

Example array_indices :
  map arrayIndex [lit "0"; lit "42"; lit "07"; lit "b"; []; lit "4294967294";
                  lit "4294967295"]
  = [Some 0%N; Some 42%N; None; None; None; Some 4294967294%N; None].
Proof. vm_compute. reflexivity. Qed.

Example own_set_indices_first :
  map fst (assign_all [] [(lit "b", 0); (lit "2", 1); (lit "a", 2); (lit "1", 3);
                          (lit "b", 4)])
  = [lit "1"; lit "2"; lit "b"; lit "a"].
Proof. vm_compute. reflexivity. Qed.

Example transformSchema_assigns_over :
  transformSchema Sample.overridingTransformers Sample.petsDocument
    (Sample.context 3 false)
  = Ok [(lit "1", lit "one"); (lit "2", lit "two"); (lit "paths", lit "P");
        (lit "webhooks", []); (lit "components", []); (lit "express", lit "E");
        (lit "handlers", lit "H")].
Proof. vm_compute. reflexivity. Qed.

Example numbered_registry :
  map fst (registryOf Sample.emitters Sample.numberedDocument (Sample.context 3 false))
  = [lit "1"; lit "2"; lit "b"].
Proof. vm_compute. reflexivity. Qed.

Example append_to_absent :
  append_to (lit "a") (lit "x") [] = [(lit "a", lit "undefinedx")].
Proof. reflexivity. Qed.

Example null_document_throws :
  transformAll Sample.emitters VNull (Sample.context 3 false) = TypeError.
Proof. reflexivity. Qed.

Example pets_registry :
  map fst (registryOf Sample.emitters Sample.petsDocument (Sample.context 2 false))
  = [lit "getPets"; lit "addPet"].
Proof. reflexivity. Qed.

Example pets_version2 :
  transformAll Sample.emitters Sample.petsDocument (Sample.context 2 false)
  = Ok [(lit "paths", lit "paths");
        (lit "operations",
         trim (operationEntry [] (lit "getPets") (lit "operation" ++ nl)
               ++ operationEntry [] (lit "addPet") (lit "operation" ++ nl)));
        (lit "express",
         trim (expressRecord (lit "getPets") (lit "getPetsResponses")
                 (lit "getPetsRequest") (lit "getPetsQuery")
               ++ expressRecord (lit "addPet") (lit "void")
                    (lit "addPetRequest") (lit "addPetQuery")));
        (lit "handlers",
         trim (handlersOpen (dquote ++ lit "/pets" ++ dquote)
               ++ handlersMember (lit "post") (lit "addPet")
               ++ handlersMember (lit "get") (lit "getPets")
               ++ handlersClose))].
Proof. vm_compute. reflexivity. Qed.

Example empty_document_packages :
  transformSchema Sample.transformers Sample.emptyDocument (Sample.context 3 false)
  = Ok [(lit "paths", []); (lit "webhooks", []); (lit "components", [])].
Proof. reflexivity. Qed.

Example null_document_packages :
  transformSchema Sample.transformers VNull (Sample.context 3 false) = Ok [].
Proof. reflexivity. Qed.

(* ================================================================== *)
(** ** Strings and records: basic facts *)
(* ================================================================== *)

Lemma jseqb_eq (a b : jsstring) : jseqb a b = true <-> a = b.
Proof.
  revert b; induction a as [|x a IH]; intros [|y b]; simpl; split;
    try discriminate; try reflexivity.
  - intros H. apply andb_true_iff in H as [Hx Hr].
    apply N.eqb_eq in Hx. apply IH in Hr. now subst.
  - intros H. injection H as -> ->. rewrite N.eqb_refl. simpl. now apply IH.
Qed.

Lemma jseqb_refl (a : jsstring) : jseqb a a = true.
Proof. now apply jseqb_eq. Qed.

Lemma jseqb_neq (a b : jsstring) : jseqb a b = false <-> a <> b.
Proof.
  split.
  - intros H Heq. apply jseqb_eq in Heq. congruence.
  - intros H. destruct (jseqb a b) eqn:Hab; [|reflexivity].
    apply jseqb_eq in Hab. contradiction.
Qed.

Lemma assoc_None {A} (k : jsstring) (r : record A) :
  assoc k r = None <-> ~ In k (map fst r).
Proof.
  induction r as [|[k' a] r IH]; simpl.
  - tauto.
  - destruct (jseqb k k') eqn:Hk.
    + apply jseqb_eq in Hk. subst. split; [discriminate | tauto].
    + apply jseqb_neq in Hk. rewrite IH. split.
      * intros H [Heq|Hin]; [now apply Hk | now apply H].
      * tauto.
Qed.

Lemma assoc_In {A} (k : jsstring) (r : record A) :
  In k (map fst r) -> exists a, assoc k r = Some a.
Proof.
  intros Hin. destruct (assoc k r) as [a|] eqn:Ha.
  - now exists a.
  - apply assoc_None in Ha. contradiction.
Qed.

Lemma assoc_set_same {A} (k : jsstring) (a : A) (r : record A) :
  assoc k (set k a r) = Some a.
Proof.
  induction r as [|[k' a'] r IH]; simpl.
  - now rewrite jseqb_refl.
  - destruct (jseqb k k') eqn:Hk; simpl.
    + now rewrite jseqb_refl.
    + now rewrite Hk.
Qed.

Lemma assoc_set_other {A} (k k' : jsstring) (a : A) (r : record A) :
  k <> k' -> assoc k (set k' a r) = assoc k r.
Proof.
  intros Hne. induction r as [|[k0 a0] r IH]; simpl.
  - apply jseqb_neq in Hne. now rewrite Hne.
  - destruct (jseqb k' k0) eqn:Hk; simpl.
    + apply jseqb_eq in Hk. subst k0.
      apply jseqb_neq in Hne. now rewrite Hne.
    + now rewrite IH.
Qed.

Lemma set_set {A} (k : jsstring) (a b : A) (r : record A) :
  set k b (set k a r) = set k b r.
Proof.
  induction r as [|[k' a'] r IH]; simpl.
  - now rewrite jseqb_refl.
  - destruct (jseqb k k') eqn:Hk; simpl.
    + now rewrite jseqb_refl.
    + now rewrite Hk, IH.
Qed.

Lemma set_same {A} (k : jsstring) (a : A) (r : record A) :
  assoc k r = Some a -> set k a r = r.
Proof.
  induction r as [|[k' a'] r IH]; simpl.
  - discriminate.
  - destruct (jseqb k k') eqn:Hk.
    + intros H. injection H as ->. apply jseqb_eq in Hk. now subst.
    + intros H. now rewrite IH.
Qed.

Lemma set_fresh {A} (k : jsstring) (a : A) (r : record A) :
  assoc k r = None -> set k a r = r ++ [(k, a)].
Proof.
  induction r as [|[k' a'] r IH]; simpl.
  - reflexivity.
  - destruct (jseqb k k'); [discriminate|].
    intros H. now rewrite IH.
Qed.

Lemma set_last {A} (k : jsstring) (a b : A) (r : record A) :
  assoc k r = None -> set k b (r ++ [(k, a)]) = r ++ [(k, b)].
Proof.
  induction r as [|[k' a'] r IH]; simpl.
  - now rewrite jseqb_refl.
  - destruct (jseqb k k'); [discriminate|].
    intros H. now rewrite IH.
Qed.

Lemma assoc_last {A} (k : jsstring) (a : A) (r : record A) :
  assoc k r = None -> assoc k (r ++ [(k, a)]) = Some a.
Proof.
  induction r as [|[k' a'] r IH]; simpl.
  - now rewrite jseqb_refl.
  - destruct (jseqb k k'); [discriminate|]. exact IH.
Qed.

Lemma set_keys {A} (k : jsstring) (a : A) (r : record A) :
  map fst (set k a r)
  = if existsb (jseqb k) (map fst r) then map fst r else map fst r ++ [k].
Proof.
  induction r as [|[k' a'] r IH]; simpl.
  - reflexivity.
  - destruct (jseqb k k') eqn:Hk; simpl.
    + apply jseqb_eq in Hk. now subst.
    + rewrite IH. now destruct (existsb (jseqb k) (map fst r)).
Qed.

Lemma set_NoDup {A} (k : jsstring) (a : A) (r : record A) :
  NoDup (map fst r) -> NoDup (map fst (set k a r)).
Proof.
  intros Hnd. rewrite set_keys.
  destruct (existsb (jseqb k) (map fst r)) eqn:Hex; [exact Hnd|].
  apply NoDup_app; [exact Hnd | repeat constructor; simpl; tauto |].
  intros x Hx [Heq|[]]. subst x.
  assert (existsb (jseqb k) (map fst r) = true); [|congruence].
  apply existsb_exists. exists k. split; [exact Hx | apply jseqb_refl].
Qed.

Lemma append_to_NoDup (k s : jsstring) (r : Output) :
  NoDup (map fst r) -> NoDup (map fst (append_to k s r)).
Proof.
  intros Hnd. unfold append_to. destruct (assoc k r); now apply set_NoDup.
Qed.

Lemma append_to_some (k s old : jsstring) (r : Output) :
  assoc k r = Some old -> append_to k s r = set k (old ++ s) r.
Proof. intros H. unfold append_to. now rewrite H. Qed.

Lemma append_to_last (k s old : jsstring) (r : Output) :
  assoc k r = None -> append_to k s (r ++ [(k, old)]) = r ++ [(k, old ++ s)].
Proof.
  intros H. rewrite (append_to_some k s old) by now apply assoc_last.
  now apply set_last.
Qed.

Lemma assoc_app {A} (k : jsstring) (r1 r2 : record A) :
  assoc k (r1 ++ r2) = match assoc k r1 with
                       | Some a => Some a
                       | None => assoc k r2
                       end.
Proof.
  induction r1 as [|[k' a'] r1 IH]; simpl.
  - reflexivity.
  - now destruct (jseqb k k').
Qed.

Lemma assoc_Some_In {A} (k : jsstring) (a : A) (r : record A) :
  assoc k r = Some a -> In (k, a) r.
Proof.
  induction r as [|[k' a'] r IH]; simpl.
  - discriminate.
  - destruct (jseqb k k') eqn:Hk.
    + intros H. injection H as ->. apply jseqb_eq in Hk. subst. now left.
    + intros H. right. now apply IH.
Qed.

Lemma set_middle {A} (k : jsstring) (a b : A) (r1 r2 : record A) :
  assoc k r1 = None -> set k b (r1 ++ (k, a) :: r2) = r1 ++ (k, b) :: r2.
Proof.
  induction r1 as [|[k' a'] r1 IH]; simpl.
  - now rewrite jseqb_refl.
  - destruct (jseqb k k'); [discriminate|].
    intros H. now rewrite IH.
Qed.

Lemma flat_map_filter {A B} (f : A -> list B) (p : A -> bool) (l : list A) :
  flat_map f (filter p l) = flat_map (fun x => if p x then f x else []) l.
Proof.
  induction l as [|x l IH]; simpl.
  - reflexivity.
  - destruct (p x); simpl; now rewrite IH.
Qed.

(* ================================================================== *)
(** ** Plain objects whose names may be array indices *)
(* ================================================================== *)

Lemma jseqb_sym (a b : jsstring) : jseqb a b = jseqb b a.
Proof.
  destruct (jseqb a b) eqn:Hab; symmetry.
  - apply jseqb_eq in Hab. subst. apply jseqb_refl.
  - apply jseqb_neq. apply jseqb_neq in Hab. congruence.
Qed.

Lemma arrayIndex_decimal (k : jsstring) (n : N) :
  arrayIndex k = Some n -> k = decimal n.
Proof.
  unfold arrayIndex.
  destruct (forallb digit k); simpl; [|discriminate].
  destruct (jseqb (decimal (decimalValue k)) k) eqn:Hk; simpl; [|discriminate].
  destruct (decimalValue k <? 4294967295)%N; [|discriminate].
  intros H. injection H as <-. apply jseqb_eq in Hk. now symmetry.
Qed.

Lemma own_set_name {A} (k : jsstring) (a : A) (r : record A) :
  arrayIndex k = None -> own_set k a r = set k a r.
Proof.
  intros Hk. induction r as [|[k' a'] r IH]; simpl; [reflexivity|].
  unfold precedes. rewrite Hk, IH. reflexivity.
Qed.

Lemma assoc_own_set_same {A} (k : jsstring) (a : A) (r : record A) :
  assoc k (own_set k a r) = Some a.
Proof.
  induction r as [|[k' a'] r IH]; simpl.
  - now rewrite jseqb_refl.
  - destruct (jseqb k k') eqn:Hk; simpl; [now rewrite jseqb_refl|].
    destruct (precedes k k'); simpl; [now rewrite jseqb_refl | now rewrite Hk].
Qed.

Lemma assoc_own_set_other {A} (k k' : jsstring) (a : A) (r : record A) :
  k <> k' -> assoc k (own_set k' a r) = assoc k r.
Proof.
  intros Hne. apply jseqb_neq in Hne.
  induction r as [|[k0 a0] r IH]; simpl.
  - now rewrite Hne.
  - destruct (jseqb k' k0) eqn:Hk; simpl.
    + apply jseqb_eq in Hk. subst k0. now rewrite Hne.
    + destruct (precedes k' k0); simpl; [now rewrite Hne | now rewrite IH].
Qed.

(** A lookup after a run of assignments finds the last value assigned to
    the name, and the old value of a name that was not assigned. *)
Lemma assign_all_lookup {A} (k : jsstring) (pairs target : record A) :
  assoc k (assign_all target pairs)
  = match assoc k (rev pairs) with
    | Some a => Some a
    | None => assoc k target
    end.
Proof.
  unfold assign_all. revert target.
  induction pairs as [|[k' a] pairs IH]; intros target; simpl; [reflexivity|].
  rewrite IH, assoc_app. destruct (assoc k (rev pairs)); [reflexivity|].
  simpl. destruct (jseqb k k') eqn:Hk.
  - apply jseqb_eq in Hk. subst. apply assoc_own_set_same.
  - apply jseqb_neq in Hk. now apply assoc_own_set_other.
Qed.

Lemma not_among_indices (k : jsstring) (ns : list N) :
  arrayIndex k = None ->
  Forall (fun m => arrayIndex (decimal m) = Some m) ns ->
  existsb (jseqb k) (map decimal ns) = false.
Proof.
  intros Hk Hns. induction Hns as [|m ns Hm _ IH]; simpl; [reflexivity|].
  rewrite IH, orb_false_r. apply jseqb_neq. intros ->. congruence.
Qed.

(** Assigning an array index to a record whose indices come first in
    ascending order puts the index in its place among them. *)
Lemma own_set_names_index {A} (k : jsstring) (a : A) (n : N)
    (names : list jsstring) (ns : list N) (r : record A) :
  arrayIndex k = Some n ->
  map fst r = map decimal ns ++ names ->
  StronglySorted N.lt ns ->
  Forall (fun m => arrayIndex (decimal m) = Some m) ns ->
  Forall (fun x => arrayIndex x = None) names ->
  exists ns',
    map fst (own_set k a r) = map decimal ns' ++ names
    /\ StronglySorted N.lt ns'
    /\ (forall m, In m ns' <-> m = n \/ In m ns).
Proof.
  intros Hk. pose proof (arrayIndex_decimal k n Hk) as Hkn. subst k.
  revert r. induction ns as [|m ns IH]; intros r Hr Hsorted Hns Hnames.
  - exists [n]. simpl in Hr. split; [|split; [repeat constructor|]].
    + destruct r as [|[k' a'] r].
      * simpl in Hr. now rewrite <- Hr.
      * destruct names as [|x names]; [discriminate|].
        simpl in Hr. injection Hr as Hx Hr. subst k'.
        inversion Hnames as [|? ? Hx _].
        cbn [own_set].
        replace (jseqb (decimal n) x) with false
          by (symmetry; apply jseqb_neq; intros <-; congruence).
        unfold precedes. rewrite Hk, Hx. simpl. now rewrite Hr.
    + intros m. simpl. intuition.
  - destruct r as [|[k' a'] r]; [discriminate|].
    simpl in Hr. injection Hr as Hk' Hr. subst k'.
    inversion Hsorted as [|? ? Hsorted' Hlt].
    inversion Hns as [|? ? Hm Hns'].
    simpl. destruct (jseqb (decimal n) (decimal m)) eqn:Heq.
    + apply jseqb_eq in Heq. assert (Hnm : n = m) by congruence.
      exists (m :: ns). simpl. rewrite Hr, Heq.
      split; [reflexivity|]. split; [exact Hsorted|]. intros y. simpl.
      intuition congruence.
    + assert (Hnm : n <> m) by (intros Hnm; apply jseqb_neq in Heq; congruence).
      unfold precedes. rewrite Hk, Hm.
      destruct (n <? m)%N eqn:Hlt'.
      * apply N.ltb_lt in Hlt'. exists (n :: m :: ns). simpl. rewrite Hr.
        split; [reflexivity|]. split.
        -- constructor; [exact Hsorted|]. constructor; [exact Hlt'|].
           rewrite Forall_forall in Hlt |- *. intros y Hy.
           specialize (Hlt y Hy). lia.
        -- intros y. simpl. intuition congruence.
      * apply N.ltb_ge in Hlt'.
        destruct (IH r Hr Hsorted' Hns' Hnames) as (ns' & Hkeys & Hs' & Hin).
        exists (m :: ns'). simpl. rewrite Hkeys.
        split; [reflexivity|]. split.
        -- constructor; [exact Hs'|]. rewrite Forall_forall in Hlt |- *.
           intros y Hy. apply Hin in Hy as [->|Hy]; [lia | now apply Hlt].
        -- intros y. simpl. rewrite Hin. intuition congruence.
Qed.

Lemma names_step (k : jsstring) (names rest : list jsstring) :
  let names' := if existsb (jseqb k) names then names else names ++ [k] in
  names' ++ filter (fun x => negb (existsb (jseqb x) names')) rest
  = names
    ++ filter (fun x => negb (existsb (jseqb x) names))
         (k :: filter (fun x => negb (jseqb k x)) rest).
Proof.
  cbv zeta. simpl filter. destruct (existsb (jseqb k) names) eqn:Hk; simpl.
  - f_equal. induction rest as [|x rest IH]; simpl; [reflexivity|].
    destruct (jseqb k x) eqn:Hkx; simpl.
    + apply jseqb_eq in Hkx. subst x. now rewrite Hk.
    + now rewrite IH.
  - rewrite <- app_assoc. simpl. do 2 f_equal.
    induction rest as [|x rest IH]; simpl; [reflexivity|].
    rewrite existsb_app. simpl. rewrite orb_false_r, (jseqb_sym x k).
    destruct (jseqb k x); simpl.
    + now rewrite orb_true_r.
    + rewrite orb_false_r.
      destruct (existsb (jseqb x) names); simpl; now rewrite IH.
Qed.

(** The names of a record after a run of assignments: the array indices in
    ascending order, then the names that were there, then the new names that
    are not array indices, in the order of their first assignment. *)
Lemma assign_all_names {A} (pairs : record A) :
  forall (r : record A) (ns : list N) (names : list jsstring),
  map fst r = map decimal ns ++ names ->
  StronglySorted N.lt ns ->
  Forall (fun m => arrayIndex (decimal m) = Some m) ns ->
  Forall (fun x => arrayIndex x = None) names ->
  exists ns',
    map fst (assign_all r pairs)
    = map decimal ns' ++ names
      ++ filter (fun x => negb (existsb (jseqb x) names))
           (new_Set (filter notIndex (map fst pairs)))
    /\ StronglySorted N.lt ns'
    /\ (forall m, In m ns'
                  <-> In m ns \/ exists k, In k (map fst pairs) /\ arrayIndex k = Some m).
Proof.
  unfold assign_all.
  induction pairs as [|[k a] pairs IH]; intros r ns names Hr Hsorted Hns Hnames.
  - exists ns. simpl. rewrite app_nil_r. split; [exact Hr|].
    split; [exact Hsorted|]. intros m. split; [tauto|].
    intros [H|(k & [] & _)]. exact H.
  - simpl fold_left. simpl map. destruct (arrayIndex k) as [n|] eqn:Hk.
    + destruct (own_set_names_index k a n names ns r Hk Hr Hsorted Hns Hnames)
        as (ns1 & Hr1 & Hs1 & Hin1).
      assert (Hns1 : Forall (fun m => arrayIndex (decimal m) = Some m) ns1).
      { rewrite Forall_forall in Hns |- *. intros m Hm.
        apply Hin1 in Hm as [->|Hm]; [|now apply Hns].
        now rewrite <- (arrayIndex_decimal k n Hk). }
      destruct (IH _ ns1 names Hr1 Hs1 Hns1 Hnames) as (ns' & Hkeys & Hs' & Hin').
      exists ns'. split; [|split; [exact Hs'|]].
      * rewrite Hkeys. simpl filter. unfold notIndex at 2. now rewrite Hk.
      * intros m. rewrite Hin', Hin1. split.
        -- intros [[->|H]|(x & Hx & Hxm)]; [right; exists k; simpl; auto | now left |].
           right. exists x. simpl. auto.
        -- intros [H|(x & [<-|Hx] & Hxm)]; [tauto | | right; now exists x].
           left. left. congruence.
    + rewrite (own_set_name k a r Hk).
      set (names' := if existsb (jseqb k) names then names else names ++ [k]).
      assert (Hr' : map fst (set k a r) = map decimal ns ++ names').
      { rewrite set_keys, Hr, existsb_app, (not_among_indices k ns Hk Hns). simpl.
        unfold names'. destruct (existsb (jseqb k) names); [reflexivity|].
        now rewrite app_assoc. }
      assert (Hnames' : Forall (fun x => arrayIndex x = None) names').
      { unfold names'. destruct (existsb (jseqb k) names); [exact Hnames|].
        apply Forall_app. split; [exact Hnames | now repeat constructor]. }
      destruct (IH _ ns names' Hr' Hsorted Hns Hnames') as (ns' & Hkeys & Hs' & Hin').
      exists ns'. split; [|split; [exact Hs'|]].
      * rewrite Hkeys. f_equal. simpl filter. unfold notIndex at 2. rewrite Hk.
        simpl new_Set. apply names_step.
      * intros m. rewrite Hin'. split.
        -- intros [H|(x & Hx & Hxm)]; [now left|]. right. exists x. simpl. auto.
        -- intros [H|(x & [<-|Hx] & Hxm)]; [now left | congruence |].
           right. now exists x.
Qed.

(* ================================================================== *)
(** ** [trim] *)
(* ================================================================== *)

Lemma trimStart_no_leading (s : jsstring) : no_leading_ws (trimStart s).
Proof.
  induction s as [|c s IH]; simpl.
  - exact I.
  - destruct (is_whitespace c) eqn:Hc; [exact IH | exact Hc].
Qed.

Lemma trimStart_snoc (s : jsstring) (c : N) :
  is_whitespace c = false -> exists s', trimStart (s ++ [c]) = s' ++ [c].
Proof.
  intros Hc. induction s as [|d s IH]; simpl.
  - rewrite Hc. now exists [].
  - destruct (is_whitespace d).
    + exact IH.
    + now exists (d :: s).
Qed.

Lemma trimStart_nil_or_first (s : jsstring) :
  trimStart s = [] \/ exists c r, trimStart s = c :: r /\ is_whitespace c = false.
Proof.
  induction s as [|c s IH]; simpl.
  - now left.
  - destruct (is_whitespace c) eqn:Hc; [exact IH|].
    right. now exists c, s.
Qed.

Lemma trimEnd_keeps_first (c : N) (r : jsstring) :
  is_whitespace c = false -> exists r', trimEnd (c :: r) = c :: r'.
Proof.
  intros Hc. unfold trimEnd. simpl.
  destruct (trimStart_snoc (rev r) c Hc) as [s' Hs'].
  rewrite Hs', rev_app_distr. simpl. now exists (rev s').
Qed.

Lemma trim_no_leading (s : jsstring) : no_leading_ws (trim s).
Proof.
  unfold trim.
  destruct (trimStart_nil_or_first s) as [H|(c & r & H & Hc)]; rewrite H.
  - exact I.
  - destruct (trimEnd_keeps_first c r Hc) as [r' Hr']. rewrite Hr'. exact Hc.
Qed.

Lemma trim_no_trailing (s : jsstring) : no_trailing_ws (trim s).
Proof.
  unfold no_trailing_ws, trim, trimEnd. rewrite rev_involutive.
  apply trimStart_no_leading.
Qed.

(* ================================================================== *)
(** ** Loops *)
(* ================================================================== *)

Lemma bind_Ok {A B} (a : A) (f : A -> result B) : bind (Ok a) f = f a.
Proof. reflexivity. Qed.

Lemma for_of_ext {A S} (l : list A) (f g : A -> S -> result S) (s : S) :
  (forall x t, f x t = g x t) -> for_of l f s = for_of l g s.
Proof.
  intros Hfg. revert s. induction l as [|x l IH]; intros s; simpl.
  - reflexivity.
  - rewrite Hfg. destruct (g x s); simpl; [apply IH | reflexivity].
Qed.

(** A property of the loop state that every iteration keeps holds after
    the loop. *)
Lemma for_of_invariant {A S} (P : S -> Prop) (l : list A)
    (body : A -> S -> result S) :
  (forall x s s', body x s = Ok s' -> P s -> P s') ->
  forall s s', for_of l body s = Ok s' -> P s -> P s'.
Proof.
  intros Hbody. induction l as [|x l IH]; intros s s'; simpl.
  - intros H. injection H as ->. auto.
  - destruct (body x s) as [s1|] eqn:Hx; simpl; [|discriminate].
    intros H Hs. eapply IH; [exact H|]. eapply Hbody; eauto.
Qed.

(** A loop whose iterations append to one property of the record appends
    the concatenation of what the iterations append. *)
Lemma for_of_appends {A} (k : jsstring) (text : A -> jsstring) (l : list A)
    (body : A -> Output -> result Output) :
  (forall x out old, In x l -> assoc k out = Some old ->
                     body x out = Ok (set k (old ++ text x) out)) ->
  forall out old, assoc k out = Some old ->
    for_of l body out = Ok (set k (old ++ flat_map text l) out).
Proof.
  induction l as [|x l IH]; intros Hbody out old Hold; simpl.
  - rewrite app_nil_r. now rewrite set_same.
  - rewrite (Hbody x out old) by (simpl; auto). simpl.
    rewrite (IH (fun y o o' Hy => Hbody y o o' (or_intror Hy)) _ (old ++ text x))
      by apply assoc_set_same.
    now rewrite set_set, app_assoc.
Qed.

(* ================================================================== *)
(** ** Property access that does not throw *)
(* ================================================================== *)

Lemma truthy_not_nullish (v : value) : truthy v = true -> nullish v = false.
Proof. destruct v; simpl; congruence. Qed.

Lemma get_ok (v : value) (name : string) :
  nullish v = false -> get v name = Ok (prop v name).
Proof.
  unfold prop, get. destruct v; simpl; try discriminate; try reflexivity.
  intros _. now destruct (assoc (lit name) l).
Qed.

Lemma entries_ok (v : value) :
  nullish v = false -> Object_entries v = Ok (entriesOf v).
Proof. unfold entriesOf. destruct v; simpl; try discriminate; reflexivity. Qed.

Lemma keys_ok (v : value) :
  nullish v = false -> Object_keys v = Ok (keysOf v).
Proof.
  intros H. unfold Object_keys, keysOf. now rewrite (entries_ok v H).
Qed.

Lemma globalParametersOf_ok (schema : value) :
  nullish schema = false -> globalParametersOf schema = Ok (globalParams schema).
Proof.
  intros H. unfold globalParametersOf, globalParams.
  rewrite (get_ok schema "components" H). simpl.
  destruct (truthy (prop schema "components")) eqn:Hc.
  - rewrite (get_ok _ "parameters" (truthy_not_nullish _ Hc)). simpl.
    destruct (truthy (prop (prop schema "components") "parameters")); [reflexivity|].
    now apply get_ok.
  - simpl. rewrite Hc. now apply get_ok.
Qed.

(* ================================================================== *)
(** ** The blocks of [transformAll], one by one *)
(* ================================================================== *)

Section Blocks.

Variable E : LeafEmitters.
Variable schema : value.
Variable ctx : GlobalContext.
Hypothesis schema_not_nullish : nullish schema = false.

Lemma rawSchemaMode_falls_through :
  shortCircuits ctx = false -> rawSchemaMode E schema ctx [] = Ok None.
Proof.
  unfold shortCircuits, rawSchemaMode. intros H.
  destruct (rawSchema ctx); [|reflexivity].
  rewrite (keys_ok schema schema_not_nullish). simpl in *.
  apply orb_false_iff in H as [-> ->]. reflexivity.
Qed.

Lemma pathsSection_spec :
  pathsSection E schema ctx [] []
  = Ok ([(lit "paths", pathsText E schema ctx)], registryOf E schema ctx).
Proof.
  unfold pathsSection, pathsText, registryOf, pathsResult.
  rewrite (get_ok schema "paths" schema_not_nullish). simpl bind.
  destruct (truthy (prop schema "paths")); [|reflexivity].
  rewrite (globalParametersOf_ok schema schema_not_nullish). simpl bind.
  now destruct (transformPathsObj E _ _ _).
Qed.

Lemma schemaMapSection_spec (name : string) (collection : value) (out : Output) :
  assoc (lit name) out = None ->
  schemaMapSection E name collection ctx out
  = Ok (out ++ sectionIf name collection (schemaMapOf E ctx collection)).
Proof.
  intros Hfresh. unfold schemaMapSection, sectionIf, schemaMapOf.
  destruct (truthy collection) eqn:Ht.
  - rewrite (keys_ok _ (truthy_not_nullish _ Ht)). simpl.
    now rewrite set_fresh.
  - now rewrite app_nil_r.
Qed.

Lemma sectionIf_fresh (k : jsstring) (name : string) (c : value) (body : jsstring) :
  jseqb k (lit name) = false -> assoc k (sectionIf name c body) = None.
Proof.
  intros H. unfold sectionIf. destruct (truthy c); simpl; [now rewrite H | reflexivity].
Qed.

Lemma sectionIf_truthy (name : string) (c : value) (body : jsstring) :
  truthy c = true -> sectionIf name c body = [(lit name, body)].
Proof. intros H. unfold sectionIf. now rewrite H. Qed.

Lemma sectionIf_falsy (name : string) (c : value) (body : jsstring) :
  truthy c = false -> sectionIf name c body = [].
Proof. intros H. unfold sectionIf. now rewrite H. Qed.

Lemma version2_spec (out : Output) :
  assoc (lit "definitions") out = None ->
  assoc (lit "parameters") out = None ->
  assoc (lit "responses") out = None ->
  version2 E schema ctx out
  = Ok (out
        ++ sectionIf "definitions" (prop schema "definitions")
             (schemaMapOf E ctx (prop schema "definitions"))
        ++ sectionIf "parameters" (prop schema "parameters")
             (schemaMapOf E ctx (prop schema "parameters"))
        ++ sectionIf "responses" (prop schema "responses")
             (transformResponsesObj E (prop schema "responses") ctx)).
Proof.
  intros Hd Hp Hr. unfold version2.
  rewrite (get_ok schema "definitions" schema_not_nullish). simpl bind.
  rewrite (schemaMapSection_spec _ _ _ Hd). simpl bind.
  rewrite (get_ok schema "parameters" schema_not_nullish). simpl bind.
  rewrite schemaMapSection_spec
    by (rewrite assoc_app, Hp; now apply sectionIf_fresh).
  simpl bind.
  rewrite (get_ok schema "responses" schema_not_nullish). simpl bind.
  destruct (truthy (prop schema "responses")) eqn:Ht.
  - rewrite (sectionIf_truthy "responses" _ _ Ht).
    rewrite set_fresh; [now rewrite <- !app_assoc|].
    rewrite !assoc_app, Hr.
    now rewrite !sectionIf_fresh by reflexivity.
  - rewrite (sectionIf_falsy "responses" _ _ Ht).
    now rewrite <- !app_assoc, app_nil_r.
Qed.

Lemma version3_spec (out : Output) :
  assoc (lit "components") out = None ->
  version3 E (readonlyOf E ctx) schema ctx out
  = Ok (out ++ [(lit "components", componentsText E schema ctx)]).
Proof.
  intros Hc. unfold version3, componentsText.
  rewrite (set_fresh _ _ _ Hc).
  rewrite (get_ok schema "components" schema_not_nullish). simpl bind.
  destruct (truthy (prop schema "components")) eqn:Ht; [|reflexivity].
  pose proof (truthy_not_nullish _ Ht) as Hn.
  rewrite (get_ok _ "schemas" Hn), (get_ok _ "responses" Hn),
    (get_ok _ "parameters" Hn), (get_ok _ "requestBodies" Hn),
    (get_ok _ "headers" Hn).
  unfold blockIf, schemaMapOf. simpl bind.
  destruct (truthy (prop (prop schema "components") "schemas")) eqn:H1;
    [rewrite (keys_ok _ (truthy_not_nullish _ H1))|]; simpl bind;
  destruct (truthy (prop (prop schema "components") "responses")) eqn:H2;
  (destruct (truthy (prop (prop schema "components") "parameters")) eqn:H3;
    [rewrite (keys_ok _ (truthy_not_nullish _ H3))|]); simpl bind;
  destruct (truthy (prop (prop schema "components") "requestBodies")) eqn:H4;
  destruct (truthy (prop (prop schema "components") "headers")) eqn:H5;
  cbv beta iota;
  rewrite ?(append_to_last _ _ _ _ Hc);
  rewrite ?app_nil_l, ?app_nil_r, <- ?app_assoc; reflexivity.
Qed.

Lemma versionSwitch_spec (out : Output) :
  (forall k, In k versionKeys -> assoc k out = None) ->
  versionSwitch E (readonlyOf E ctx) schema ctx out
  = Ok (out ++ versionSections E schema ctx).
Proof.
  intros Hfresh. unfold versionSwitch, versionSections.
  destruct (version ctx =? 2)%Z.
  - apply version2_spec; apply Hfresh; simpl; auto.
  - destruct (version ctx =? 3)%Z.
    + apply version3_spec; apply Hfresh; simpl; auto.
    + now rewrite app_nil_r.
Qed.

Lemma versionSections_fresh (k : jsstring) :
  includes versionKeys k = false -> assoc k (versionSections E schema ctx) = None.
Proof.
  unfold includes, versionKeys. simpl. rewrite !orb_false_iff.
  intros (Hd & Hp & Hr & Hc & _). unfold versionSections.
  destruct (version ctx =? 2)%Z.
  - rewrite !assoc_app. now rewrite !sectionIf_fresh.
  - destruct (version ctx =? 3)%Z; simpl; [now rewrite Hc | reflexivity].
Qed.

End Blocks.

Section RegistryBlocks.

Variable E : LeafEmitters.
Variable schema : value.
Variable ctx : GlobalContext.
Variable operations : registry.
Hypothesis schema_not_nullish : nullish schema = false.
Hypothesis operations_not_nullish :
  forallb (fun ie => negb (nullish (operation (snd ie)))) operations = true.

Lemma registered_not_nullish (id : jsstring) (e : RegistryEntry) :
  assoc id operations = Some e -> nullish (operation e) = false.
Proof.
  intros H. apply assoc_Some_In in H.
  rewrite forallb_forall in operations_not_nullish.
  apply operations_not_nullish in H. simpl in H.
  now destruct (nullish (operation e)).
Qed.

Lemma operationsSection_spec (out : Output) :
  assoc (lit "operations") out = None ->
  operationsSection E (readonlyOf E ctx) schema ctx operations out
  = Ok (out ++ [(lit "operations", perOperation (operationText E schema ctx) operations)]).
Proof.
  intros Hfresh. unfold operationsSection.
  rewrite (set_fresh _ _ _ Hfresh).
  destruct (negb (List.length (map fst operations) =? 0)%nat) eqn:Hguard.
  2:{ unfold perOperation.
      destruct (map fst operations); [reflexivity | discriminate]. }
  unfold perOperation.
  erewrite for_of_appends with (old := []);
    [rewrite app_nil_l, set_last by exact Hfresh; reflexivity | | now apply assoc_last].
  intros id o' old Hin Hold. cbv beta.
  destruct (assoc_In _ _ Hin) as [e He].
  unfold registryGet. rewrite He. simpl bind.
  rewrite (get_ok _ "description" (registered_not_nullish _ _ He)). simpl bind.
  rewrite (globalParametersOf_ok _ schema_not_nullish). simpl bind.
  unfold operationText. cbv zeta.
  destruct (truthy (prop (operation e) "description")).
  - rewrite (append_to_some _ _ _ _ Hold).
    rewrite (append_to_some _ _ (old ++ comment E (prop (operation e) "description")))
      by apply assoc_set_same.
    now rewrite set_set, <- app_assoc.
  - now rewrite (append_to_some _ _ _ _ Hold).
Qed.

Lemma expressLoop_spec (out : Output) :
  assoc (lit "express") out = None ->
  for_of (map fst operations)
    (fun id output =>
       e <- registryGet operations id ;;
       g <- globalParametersOf schema ;;
       let typeArgs := operationContext ctx e g in
       responses <- get (operation e) "responses" ;;
       Ok (append_to (lit "express")
             (expressRecord id
                (if truthy responses then getResponseTypes E id responses
                 else lit "void")
                (operationRequestType E id (operation e) typeArgs)
                (queryStringType E id (operation e) typeArgs))
             output))
    (out ++ [(lit "express", [])])
  = Ok (out ++ [(lit "express", perOperation (expressText E schema ctx) operations)]).
Proof.
  intros Hfresh. unfold perOperation.
  erewrite for_of_appends with (old := []);
    [rewrite app_nil_l, set_last by exact Hfresh; reflexivity | | now apply assoc_last].
  intros id o' old Hin Hold. cbv beta.
  destruct (assoc_In _ _ Hin) as [e He].
  unfold registryGet. rewrite He. simpl bind.
  rewrite (globalParametersOf_ok _ schema_not_nullish). simpl bind.
  rewrite (get_ok _ "responses" (registered_not_nullish _ _ He)). simpl bind.
  now rewrite (append_to_some _ _ _ _ Hold).
Qed.

Lemma handlerMembers_spec (path : jsstring) (methods : value) (out : Output)
    (old : jsstring) :
  assoc (lit "handlers") out = Some old ->
  for_of (entriesOf methods)
    (fun '(method, op) output =>
       if includes httpMethods method then
         Ok (append_to (lit "handlers")
               (handlersMember method (getOperationId E op method path)) output)
       else Ok output)
    out
  = Ok (set (lit "handlers") (old ++ handlerMembers E path methods) out).
Proof.
  intros Hold. unfold handlerMembers. rewrite flat_map_filter.
  apply for_of_appends; [|exact Hold].
  intros [method op] o old' _ Hold'. cbv beta iota delta [fst snd].
  destruct (includes httpMethods method).
  - now rewrite (append_to_some _ _ _ _ Hold').
  - now rewrite app_nil_r, set_same.
Qed.

Lemma handlersSection_spec (out : Output) :
  assoc (lit "handlers") out = None ->
  nullish (prop schema "paths") = false ->
  forallb (fun pm => negb (nullish (snd pm))) (entriesOf (prop schema "paths")) = true ->
  handlersSection E schema out = Ok (out ++ [(lit "handlers", handlersText E schema)]).
Proof.
  intros Hfresh Hpaths Hitems. unfold handlersSection.
  rewrite (set_fresh _ _ _ Hfresh).
  rewrite (get_ok _ "paths" schema_not_nullish), bind_Ok.
  rewrite (entries_ok _ Hpaths), bind_Ok.
  unfold handlersText.
  erewrite for_of_appends with (old := []) (text := handlersEntry E);
    [rewrite app_nil_l, set_last by exact Hfresh; reflexivity | | now apply assoc_last].
  intros [path methods] o old Hin Hold. cbv beta iota zeta.
  rewrite forallb_forall in Hitems. apply Hitems in Hin. simpl in Hin.
  apply negb_true_iff in Hin.
  rewrite (entries_ok _ Hin), bind_Ok.
  rewrite (append_to_some _ _ _ _ Hold).
  rewrite (handlerMembers_spec path methods _ (old ++ handlersOpen (getOperationIdFromPath E path)))
    by apply assoc_set_same.
  rewrite bind_Ok.
  rewrite (append_to_some _ _
             ((old ++ handlersOpen (getOperationIdFromPath E path))
              ++ handlerMembers E path methods))
    by apply assoc_set_same.
  rewrite !set_set. unfold handlersEntry. cbv beta iota delta [fst snd].
  now rewrite <- !app_assoc.
Qed.

End RegistryBlocks.

Lemma expressSection_spec (E : LeafEmitters) (schema : value) (ctx : GlobalContext)
    (operations : registry) (out : Output) :
  nullish schema = false ->
  forallb (fun ie => negb (nullish (operation (snd ie)))) operations = true ->
  assoc (lit "express") out = None ->
  assoc (lit "handlers") out = None ->
  (operations <> [] ->
   nullish (prop schema "paths") = false
   /\ forallb (fun pm => negb (nullish (snd pm))) (entriesOf (prop schema "paths")) = true) ->
  expressSection E schema ctx operations out
  = Ok (out
        ++ (lit "express", perOperation (expressText E schema ctx) operations)
           :: match operations with
              | [] => []
              | _ :: _ => [(lit "handlers", handlersText E schema)]
              end).
Proof.
  intros Hs Hops Hx Hh Hpaths. unfold expressSection.
  rewrite (set_fresh _ _ _ Hx).
  destruct (negb (List.length (map fst operations) =? 0)%nat) eqn:Hguard.
  - pose proof (expressLoop_spec E schema ctx operations Hs Hops _ Hx) as Hloop.
    match goal with
    | |- bind ?loop _ = _ =>
        replace loop
          with (Ok (out ++ [(lit "express",
                             perOperation (expressText E schema ctx) operations)]))
          by (symmetry; exact Hloop)
    end.
    rewrite bind_Ok. clear Hloop.
    assert (Hne : operations <> []) by (intros ->; discriminate).
    destruct (Hpaths Hne) as [Hp Hitems].
    rewrite (handlersSection_spec E schema Hs);
      [ | rewrite assoc_app, Hh; reflexivity | exact Hp | exact Hitems].
    destruct operations; [contradiction | now rewrite <- app_assoc].
  - destruct operations; [reflexivity | discriminate].
Qed.

Lemma trimmed_keys (out : Output) : map fst (trimmed out) = map fst out.
Proof. unfold trimmed. rewrite map_map. reflexivity. Qed.

Lemma cleanup_from (todo done : Output) :
  NoDup (map fst (done ++ todo)) ->
  for_of (map fst todo)
    (fun k output =>
       match assoc k output with
       | Some s => Ok (set k (trim s) output)
       | None => Ok output
       end)
    (trimmed done ++ todo)
  = Ok (trimmed (done ++ todo)).
Proof.
  revert done. induction todo as [|[k v] todo IH]; intros done Hnd; simpl.
  - now rewrite !app_nil_r.
  - assert (Hk : assoc k (trimmed done) = None).
    { apply assoc_None. rewrite trimmed_keys.
      rewrite map_app in Hnd. simpl in Hnd.
      apply NoDup_remove_2 in Hnd. intros Hin. apply Hnd.
      apply in_or_app. now left. }
    rewrite assoc_app, Hk. simpl. rewrite jseqb_refl. simpl.
    rewrite (set_middle _ _ _ _ _ Hk).
    replace (trimmed done ++ (k, trim v) :: todo)
      with (trimmed (done ++ [(k, v)]) ++ todo)
      by (unfold trimmed; rewrite map_app, <- app_assoc; reflexivity).
    rewrite IH by (now rewrite <- app_assoc).
    now rewrite <- app_assoc.
Qed.

Lemma cleanup_spec (out : Output) :
  NoDup (map fst out) -> cleanup out = Ok (trimmed out).
Proof. intros Hnd. exact (cleanup_from out [] Hnd). Qed.

(* ================================================================== *)
(** ** Full-document processing as a whole *)
(* ================================================================== *)

Lemma registryOf_paths (E : LeafEmitters) (schema : value) (ctx : GlobalContext) :
  registryOf E schema ctx <> [] -> truthy (prop schema "paths") = true.
Proof.
  unfold registryOf, pathsResult.
  destruct (truthy (prop schema "paths")); [reflexivity | simpl; congruence].
Qed.

Lemma wellFormed_parts (E : LeafEmitters) (schema : value) (ctx : GlobalContext) :
  wellFormed E schema ctx = true ->
  nullish schema = false
  /\ forallb (fun ie => negb (nullish (operation (snd ie)))) (registryOf E schema ctx) = true
  /\ (registryOf E schema ctx <> [] ->
      nullish (prop schema "paths") = false
      /\ forallb (fun pm => negb (nullish (snd pm))) (entriesOf (prop schema "paths")) = true).
Proof.
  unfold wellFormed. rewrite !andb_true_iff, negb_true_iff.
  intros [[Hs Hops] Hitems]. repeat split; try assumption.
  - now apply truthy_not_nullish, (registryOf_paths E schema ctx).
  - destruct (registryOf E schema ctx); [contradiction | exact Hitems].
Qed.

Lemma sectionIf_keys (name : string) (c : value) (body : jsstring) :
  map fst (sectionIf name c body) = if truthy c then [lit name] else [].
Proof. unfold sectionIf. now destruct (truthy c). Qed.

Lemma documentSections_NoDup (E : LeafEmitters) (schema : value) (ctx : GlobalContext) :
  NoDup (map fst (documentSections E schema ctx)).
Proof.
  unfold documentSections, versionSections, handlersSections.
  cbn [map fst]. rewrite !map_app. cbn [map fst].
  destruct (registryOf E schema ctx); destruct (version ctx =? 2)%Z;
    rewrite ?map_app, ?sectionIf_keys;
    try destruct (truthy (prop schema "definitions"));
    try destruct (truthy (prop schema "parameters"));
    try destruct (truthy (prop schema "responses"));
    try destruct (version ctx =? 3)%Z;
    cbn [map fst app];
    repeat (constructor; [cbv; intuition discriminate|]); constructor.
Qed.

(** When the raw-schema block does not return, a well-formed input gives
    the trimmed sections of full-document processing, in the order the
    engine creates them. *)
Lemma transformAll_document (E : LeafEmitters) (schema : value) (ctx : GlobalContext) :
  wellFormed E schema ctx = true ->
  shortCircuits ctx = false ->
  transformAll E schema ctx = Ok (trimmed (documentSections E schema ctx)).
Proof.
  intros Hwf Hraw.
  destruct (wellFormed_parts E schema ctx Hwf) as (Hs & Hops & Hitems).
  unfold transformAll.
  rewrite (rawSchemaMode_falls_through E schema ctx Hs Hraw), bind_Ok.
  rewrite (pathsSection_spec E schema ctx Hs), bind_Ok.
  fold (readonlyOf E ctx).
  rewrite (versionSwitch_spec E schema ctx Hs)
    by (intros k [<-|[<-|[<-|[<-|[]]]]]; reflexivity).
  rewrite bind_Ok.
  rewrite (operationsSection_spec E schema ctx _ Hs Hops)
    by (rewrite assoc_app; simpl;
        rewrite (versionSections_fresh E schema ctx) by reflexivity; reflexivity).
  rewrite bind_Ok.
  rewrite (expressSection_spec E schema ctx _ _ Hs Hops);
    [ | rewrite !assoc_app; simpl;
        rewrite (versionSections_fresh E schema ctx) by reflexivity; reflexivity ..
      | exact Hitems ].
  rewrite bind_Ok.
  assert (Hshape :
    (([(lit "paths", pathsText E schema ctx)] ++ versionSections E schema ctx)
     ++ [(lit "operations",
          perOperation (operationText E schema ctx) (registryOf E schema ctx))])
    ++ (lit "express",
        perOperation (expressText E schema ctx) (registryOf E schema ctx))
       :: match registryOf E schema ctx with
          | [] => []
          | _ :: _ => [(lit "handlers", handlersText E schema)]
          end
    = documentSections E schema ctx).
  { unfold documentSections, handlersSections, operationsText, expressSectionText.
    rewrite <- !app_assoc. reflexivity. }
  rewrite Hshape. apply cleanup_spec, documentSections_NoDup.
Qed.

(* ================================================================== *)
(** ** The output record never holds a name twice *)
(* ================================================================== *)

Create HintDb records.
#[local] Hint Resolve set_NoDup append_to_NoDup : records.

Ltac run_step H :=
  lazymatch type of H with
  | bind ?m _ = Ok _ =>
      let r := fresh "r" in
      let Hr := fresh "Hr" in
      destruct m as [r|] eqn:Hr; [rewrite bind_Ok in H | discriminate H]
  | (if ?c then _ else _) = Ok _ => destruct c
  | (let (_, _) := ?p in _) = Ok _ => destruct p
  | match ?o with Some _ => _ | None => _ end = Ok _ => destruct o
  | Ok _ = Ok _ => inversion H; subst; clear H
  end.

Ltac run H := repeat (cbv beta zeta in H; run_step H).

Ltac run_all :=
  repeat match goal with
         | H : _ = Ok _ |- _ => progress (run H)
         end.

Ltac distinct_goal :=
  repeat match goal with
         | |- context [if ?c then _ else _] => destruct c
         end;
  auto 10 with records.

Section Distinct.

Variable E : LeafEmitters.
Variable schema : value.
Variable ctx : GlobalContext.

Lemma pathsSection_distinct (out : Output) (operations : registry) :
  pathsSection E schema ctx [] [] = Ok (out, operations) -> distinctNames out.
Proof.
  unfold pathsSection, distinctNames. intros H. run H.
  - apply append_to_NoDup. repeat constructor. simpl. tauto.
  - repeat constructor. simpl. tauto.
Qed.

Lemma schemaMapSection_distinct (name : string) (c : value) (out out' : Output) :
  schemaMapSection E name c ctx out = Ok out' -> distinctNames out -> distinctNames out'.
Proof.
  unfold schemaMapSection, distinctNames. intros H Hd. run H; auto with records.
Qed.

Lemma versionSwitch_distinct (readonly : jsstring) (out out' : Output) :
  versionSwitch E readonly schema ctx out = Ok out' ->
  distinctNames out -> distinctNames out'.
Proof.
  unfold versionSwitch, version2, version3. intros H Hd.
  destruct (version ctx =? 2)%Z; [|destruct (version ctx =? 3)%Z].
  - run_step H. run_step H. run_step H. run_step H. run_step H.
    apply schemaMapSection_distinct in Hr0; [|exact Hd].
    apply schemaMapSection_distinct in Hr2; [|exact Hr0].
    unfold distinctNames in *. run H; auto with records.
  - unfold distinctNames in *. run H; run_all; distinct_goal.
  - now injection H as <-.
Qed.

Lemma operationsSection_distinct (readonly : jsstring) (operations : registry)
    (out out' : Output) :
  operationsSection E readonly schema ctx operations out = Ok out' ->
  distinctNames out -> distinctNames out'.
Proof.
  unfold operationsSection, distinctNames. intros H Hd.
  apply (set_NoDup (lit "operations") []) in Hd.
  destruct (negb _); [|now injection H as <-].
  revert H Hd. apply (for_of_invariant (fun o : Output => NoDup (map fst o))).
  intros id s s' H Hs. run H; distinct_goal.
Qed.

Lemma handlersSection_distinct (out out' : Output) :
  handlersSection E schema out = Ok out' -> distinctNames out -> distinctNames out'.
Proof.
  unfold handlersSection, distinctNames. intros H Hd.
  apply (set_NoDup (lit "handlers") []) in Hd.
  run_step H. run_step H.
  revert H Hd. apply (for_of_invariant (fun o : Output => NoDup (map fst o))).
  intros [path methods] s s' H Hs. cbv beta iota zeta in H.
  run_step H.
  destruct (for_of r1 _ _) as [members|] eqn:Hmembers; [|discriminate H].
  rewrite bind_Ok in H. injection H as <-.
  apply append_to_NoDup.
  apply (append_to_NoDup (lit "handlers")
           (handlersOpen (getOperationIdFromPath E path))) in Hs.
  revert Hmembers Hs. apply (for_of_invariant (fun o : Output => NoDup (map fst o))).
  intros [method op] t t' H Ht. run H; distinct_goal.
Qed.

Lemma expressSection_distinct (operations : registry) (out out' : Output) :
  expressSection E schema ctx operations out = Ok out' ->
  distinctNames out -> distinctNames out'.
Proof.
  unfold expressSection. intros H Hd.
  apply (set_NoDup (lit "express") []) in Hd.
  destruct (negb _); [|now injection H as <-].
  run_step H. apply handlersSection_distinct in H; [exact H|].
  unfold distinctNames.
  revert Hr Hd. apply (for_of_invariant (fun o : Output => NoDup (map fst o))).
  intros id s s' H' Hs. run H'; distinct_goal.
Qed.

(** What a run that goes through full-document processing returns is the
    trimmed image of a record with distinct names. *)
Lemma transformAll_cleaned (out : Output) :
  shortCircuits ctx = false ->
  transformAll E schema ctx = Ok out ->
  exists out0, distinctNames out0 /\ out = trimmed out0.
Proof.
  intros Hraw H. unfold transformAll in H.
  run_step H.
  assert (r = None) as ->.
  { unfold rawSchemaMode, shortCircuits in *.
    destruct (rawSchema ctx); [|congruence].
    simpl in Hraw. apply orb_false_iff in Hraw as [H2 H3].
    rewrite H2, H3 in Hr. run Hr. reflexivity. }
  run_step H. destruct r as [o1 operations].
  run_step H. run_step H. run_step H.
  exists r1. assert (Hd : distinctNames r1).
  { eapply expressSection_distinct; [exact Hr3|].
    eapply operationsSection_distinct; [exact Hr2|].
    eapply versionSwitch_distinct; [exact Hr1|].
    eapply pathsSection_distinct. exact Hr0. }
  split; [exact Hd|].
  rewrite (cleanup_spec _ Hd) in H. now injection H as <-.
Qed.

End Distinct.

(* ================================================================== *)
(** ** Reading the sections back *)
(* ================================================================== *)

Lemma assoc_trimmed (k : jsstring) (out : Output) :
  assoc k (trimmed out) = option_map trim (assoc k out).
Proof.
  induction out as [|[k' v] out IH]; simpl.
  - reflexivity.
  - now destruct (jseqb k k').
Qed.

Lemma shortCircuits_not_raw (ctx : GlobalContext) :
  rawSchema ctx = false -> shortCircuits ctx = false.
Proof. intros H. unfold shortCircuits. now rewrite H. Qed.

Lemma shortCircuits_other_version (ctx : GlobalContext) :
  version ctx <> 2%Z -> version ctx <> 3%Z -> shortCircuits ctx = false.
Proof.
  intros H2 H3. unfold shortCircuits.
  apply Z.eqb_neq in H2, H3. rewrite H2, H3. apply andb_false_r.
Qed.

Section Lookup.

Variable E : LeafEmitters.
Variable schema : value.
Variable ctx : GlobalContext.

Lemma documentSections_paths :
  assoc (lit "paths") (documentSections E schema ctx) = Some (pathsText E schema ctx).
Proof. reflexivity. Qed.

Lemma documentSections_operations :
  assoc (lit "operations") (documentSections E schema ctx)
  = Some (operationsText E schema ctx).
Proof.
  unfold documentSections. cbn [assoc].
  change (jseqb (lit "operations") (lit "paths")) with false. cbv iota.
  rewrite assoc_app, (versionSections_fresh E schema ctx) by reflexivity.
  reflexivity.
Qed.

Lemma documentSections_express :
  assoc (lit "express") (documentSections E schema ctx)
  = Some (expressSectionText E schema ctx).
Proof.
  unfold documentSections. cbn [assoc].
  change (jseqb (lit "express") (lit "paths")) with false. cbv iota.
  rewrite assoc_app, (versionSections_fresh E schema ctx) by reflexivity.
  reflexivity.
Qed.

Lemma documentSections_handlers :
  assoc (lit "handlers") (documentSections E schema ctx)
  = match registryOf E schema ctx with
    | [] => None
    | _ :: _ => Some (handlersText E schema)
    end.
Proof.
  unfold documentSections, handlersSections. cbn [assoc].
  change (jseqb (lit "handlers") (lit "paths")) with false. cbv iota.
  rewrite assoc_app, (versionSections_fresh E schema ctx) by reflexivity.
  now destruct (registryOf E schema ctx).
Qed.

Lemma documentSections_version (k : jsstring) :
  includes versionKeys k = true ->
  assoc k (documentSections E schema ctx) = assoc k (versionSections E schema ctx).
Proof.
  intros Hk. unfold documentSections, handlersSections. cbn [assoc].
  assert (Hne : jseqb k (lit "paths") = false
                /\ jseqb k (lit "operations") = false
                /\ jseqb k (lit "express") = false
                /\ jseqb k (lit "handlers") = false).
  { unfold includes, versionKeys in Hk. apply existsb_exists in Hk as (x & Hx & Hkx).
    apply jseqb_eq in Hkx. subst x.
    destruct Hx as [<-|[<-|[<-|[<-|[]]]]]; repeat split; reflexivity. }
  destruct Hne as (-> & Ho & Hx & Hh).
  rewrite assoc_app.
  destruct (assoc k (versionSections E schema ctx)); [reflexivity|].
  cbn [app assoc]. rewrite Ho, Hx.
  destruct (registryOf E schema ctx); cbn [assoc]; [reflexivity | now rewrite Hh].
Qed.

Lemma documentSections_other (k : jsstring) :
  includes (map lit ["paths"; "operations"; "express"; "handlers"]%string ++ versionKeys) k
  = false ->
  assoc k (documentSections E schema ctx) = None.
Proof.
  unfold includes. rewrite existsb_app, orb_false_iff. intros [Hk Hv].
  cbn [map existsb] in Hk. rewrite !orb_false_iff in Hk.
  destruct Hk as (Hp & Ho & Hx & Hh & _).
  unfold documentSections, handlersSections. cbn [assoc]. rewrite Hp.
  rewrite assoc_app, (versionSections_fresh E schema ctx k Hv).
  cbn [app assoc]. rewrite Ho, Hx.
  destruct (registryOf E schema ctx); cbn [assoc]; [reflexivity | now rewrite Hh].
Qed.

Lemma nothing_without_paths :
  truthy (prop schema "paths") = false ->
  pathsText E schema ctx = [] /\ registryOf E schema ctx = [].
Proof.
  intros H. unfold pathsText, registryOf, pathsResult. now rewrite H.
Qed.

End Lookup.

Lemma globalParams_cases (schema : value) :
  globalParams schema
  = if truthy (prop schema "components")
       && truthy (prop (prop schema "components") "parameters")
    then prop (prop schema "components") "parameters"
    else prop schema "parameters".
Proof.
  unfold globalParams. destruct (truthy (prop schema "components")) eqn:Hc; simpl.
  - reflexivity.
  - now rewrite Hc.
Qed.

Lemma new_Set_In (k : jsstring) (l : list jsstring) : In k (new_Set l) <-> In k l.
Proof.
  induction l as [|x l IH]; simpl.
  - tauto.
  - rewrite filter_In, IH. split.
    + intros [H|[H _]]; auto.
    + intros [H|H]; [now left|].
      destruct (jseqb x k) eqn:Hx.
      * apply jseqb_eq in Hx. now left.
      * right. split; [exact H | reflexivity].
Qed.

Lemma new_Set_distinct (l : list jsstring) : NoDup l -> new_Set l = l.
Proof.
  induction l as [|x l IH]; intros Hnd; simpl; [reflexivity|].
  inversion Hnd as [|? ? Hnotin Hnd']. subst. rewrite (IH Hnd'). f_equal.
  rewrite (filter_ext_in _ (fun _ => true)); [apply filter_true|].
  intros y Hy. apply negb_true_iff, jseqb_neq. intros ->. contradiction.
Qed.

Lemma new_Set_NoDup (l : list jsstring) : NoDup (new_Set l).
Proof.
  induction l as [|x l IH]; simpl; constructor.
  - rewrite filter_In. intros [_ H]. now rewrite jseqb_refl in H.
  - now apply NoDup_filter.
Qed.

Lemma assoc_distinct {A} (k : jsstring) (a : A) (r : record A) :
  NoDup (map fst r) -> In (k, a) r -> assoc k r = Some a.
Proof.
  induction r as [|[k' a'] r IH]; simpl; [tauto|].
  intros Hnd [Heq|Hin].
  - injection Heq as -> ->. now rewrite jseqb_refl.
  - inversion Hnd as [|? ? Hnotin Hnd']. subst.
    destruct (jseqb k k') eqn:Hk.
    + apply jseqb_eq in Hk. subst k'. exfalso. apply Hnotin.
      apply in_map_iff. now exists (k, a).
    + now apply IH.
Qed.

(** With distinct identifiers, there is one text per registry entry. *)
Lemma perOperation_entries (f : jsstring -> RegistryEntry -> jsstring)
    (operations : registry) :
  NoDup (map fst operations) ->
  perOperation f operations = flat_map (fun ie => f (fst ie) (snd ie)) operations.
Proof.
  intros Hnd. unfold perOperation.
  assert (Hsub : forall l, incl l operations ->
            flat_map (fun id => match assoc id operations with
                                | Some e => f id e
                                | None => []
                                end) (map fst l)
            = flat_map (fun ie => f (fst ie) (snd ie)) l).
  { induction l as [|[id e] l IH]; intros Hincl; simpl; [reflexivity|].
    rewrite (assoc_distinct id e operations Hnd) by (apply Hincl; now left).
    rewrite IH; [reflexivity|].
    intros x Hx. apply Hincl. now right. }
  apply Hsub, incl_refl.
Qed.

(* ================================================================== *)
(** ** Raw-schema mode *)
(* ================================================================== *)

(** C1. When [rawSchema] is set and the version is 2 or 3, [transformAll]
    returns a record with exactly one name, [definitions] for version 2 and
    [schemas] for version 3; its value is what the schema-map emitter
    returns on the whole input in the caller's context with [required]
    replaced by the set of the top-level keys of the input (every other
    field as the caller gave it); none of [paths], [operations], [express],
    [handlers], [components] is a name of the record.  (The input is a
    schema map, so neither [undefined] nor [null].) *)
Theorem raw_schema_single_section
    (E : LeafEmitters) (schema : value) (ctx : GlobalContext) :
  rawSchema ctx = true ->
  (version ctx = 2 \/ version ctx = 3)%Z ->
  nullish schema = false ->
  exists out,
    transformAll E schema ctx = Ok out
    /\ out = [(lit (if (version ctx =? 2)%Z then "definitions" else "schemas"),
               transformSchemaObjMap E schema
                 {| version := version ctx;
                    immutableTypes := immutableTypes ctx;
                    rawSchema := rawSchema ctx;
                    required := Some (new_Set (keysOf schema));
                    globalParameters := globalParameters ctx;
                    ctx_pathItem := ctx_pathItem ctx;
                    additionalOptions := additionalOptions ctx |})]
    /\ Object_keys schema = Ok (keysOf schema)
    /\ NoDup (new_Set (keysOf schema))
    /\ (forall k, In k (new_Set (keysOf schema)) <-> In k (keysOf schema))
    /\ (NoDup (keysOf schema) -> new_Set (keysOf schema) = keysOf schema)
    /\ (forall k,
          In k (map lit ["paths"; "operations"; "express"; "handlers"; "components"]%string) ->
          assoc k out = None).
Proof.
  intros Hraw Hv Hs.
  exists [(lit (if (version ctx =? 2)%Z then "definitions" else "schemas"),
           transformSchemaObjMap E schema (with_required ctx (new_Set (keysOf schema))))].
  split; [|split; [reflexivity|]].
  - unfold transformAll, rawSchemaMode. rewrite Hraw, (keys_ok _ Hs), bind_Ok.
    destruct Hv as [Hv | Hv]; rewrite Hv; reflexivity.
  - split; [now apply keys_ok|].
    split; [apply new_Set_NoDup|].
    split; [intros k; apply new_Set_In|].
    split; [apply new_Set_distinct|].
    intros k Hk.
    destruct Hv as [-> | ->];
      destruct Hk as [<-|[<-|[<-|[<-|[<-|[]]]]]]; reflexivity.
Qed.

Lemma raw_schema_single_section_witness :
  exists out,
    transformAll Sample.emitters Sample.flatSchemas (Sample.context 3 true) = Ok out
    /\ out = [(lit "schemas", lit "schemas required{A;B;}" ++ nl)]
    /\ Object_keys Sample.flatSchemas = Ok [lit "A"; lit "B"]
    /\ NoDup [lit "A"; lit "B"]
    /\ (forall k, In k [lit "A"; lit "B"] <-> In k [lit "A"; lit "B"])
    /\ (NoDup [lit "A"; lit "B"] -> [lit "A"; lit "B"] = [lit "A"; lit "B"])
    /\ (forall k,
          In k (map lit ["paths"; "operations"; "express"; "handlers"; "components"]%string) ->
          assoc k out = None).
Proof.
  apply (raw_schema_single_section Sample.emitters Sample.flatSchemas
           (Sample.context 3 true)).
  - reflexivity.
  - right. reflexivity.
  - reflexivity.
Defined.

(* ================================================================== *)
(** ** The components section of version 3 *)
(* ================================================================== *)

(** C2, as stated, fails.  On
    [{ components: { responses: { NotFound: {} }, headers: { ETag: {} } } }]
    with version 3, the responses block is rendered in the caller's context,
    whose [required] is not set, not with [required] the key [NotFound]; and
    the value stored is trimmed, so it is neither the concatenation the
    specification describes nor its trimmed form. *)
Lemma components_required_counterexample :
  exists out actual,
    transformAll Sample.emitters Sample.componentsDocument (Sample.context 3 false)
    = Ok out
    /\ assoc (lit "components") out = Some actual
    /\ actual <> componentsSpecified Sample.emitters Sample.componentsDocument
                   (Sample.context 3 false)
    /\ actual <> trim (componentsSpecified Sample.emitters Sample.componentsDocument
                         (Sample.context 3 false)).
Proof.
  eexists. eexists. split; [vm_compute; reflexivity|].
  split; [vm_compute; reflexivity|].
  split; vm_compute; discriminate.
Qed.

(** C2, amended.  For a version-3 document (raw-schema mode off), the
    [components] section is the trimmed concatenation, in the order schemas,
    responses, parameters, requestBodies, headers, of one container block
    per sub-collection that is there (truthy) under [components]; a
    sub-collection that is not there contributes nothing.  The schemas and
    parameters blocks are rendered by the schema-map emitter with [required]
    the keys of the sub-collection, the headers block with [required] empty;
    the responses and requestBodies blocks are rendered by their emitters in
    the caller's context, unchanged. *)
Theorem components_section_v3
    (E : LeafEmitters) (schema : value) (ctx : GlobalContext) :
  rawSchema ctx = false ->
  version ctx = 3%Z ->
  wellFormed E schema ctx = true ->
  let components := prop schema "components" in
  let block (name : string) (body : jsstring) :=
    if truthy (prop components name)
    then container (tsReadonly E (immutableTypes ctx)) name body
    else [] in
  let own (c : value) := with_required ctx (new_Set (keysOf c)) in
  exists out,
    transformAll E schema ctx = Ok out
    /\ assoc (lit "components") out
       = Some (trim
           (if truthy components then
              block "schemas"%string
                (transformSchemaObjMap E (prop components "schemas")
                   (own (prop components "schemas")))
              ++ block "responses"%string
                   (transformResponsesObj E (prop components "responses") ctx)
              ++ block "parameters"%string
                   (transformSchemaObjMap E (prop components "parameters")
                      (own (prop components "parameters")))
              ++ block "requestBodies"%string
                   (transformRequestBodies E (prop components "requestBodies") ctx)
              ++ block "headers"%string
                   (transformHeaderObjMap E (prop components "headers")
                      (with_required ctx []))
            else [])).
Proof.
  intros Hraw Hv Hwf components block own.
  exists (trimmed (documentSections E schema ctx)). split.
  - apply transformAll_document; [exact Hwf | now apply shortCircuits_not_raw].
  - rewrite assoc_trimmed, documentSections_version by reflexivity.
    unfold versionSections. rewrite Hv. reflexivity.
Qed.

Lemma components_section_v3_witness :
  exists out,
    transformAll Sample.emitters Sample.componentsDocument (Sample.context 3 false)
    = Ok out
    /\ assoc (lit "components") out
       = Some (lit "responses: {" ++ nl ++ lit "    responses required?" ++ nl ++ nl
               ++ lit "  }" ++ nl
               ++ lit "  headers: {" ++ nl ++ lit "    headers required{}" ++ nl ++ nl
               ++ lit "  }").
Proof.
  apply (components_section_v3 Sample.emitters Sample.componentsDocument
           (Sample.context 3 false)); reflexivity.
Defined.

(* ================================================================== *)
(** ** The handlers section *)
(* ================================================================== *)

(** C3, as stated, fails.  On a Path Item written
    [{ post: ..., parameters: [], get: ... }] the members come out in the
    order of the Path Item, [post] before [get], not in the canonical order
    of the closed set. *)
Lemma handlers_canonical_order_counterexample :
  exists out actual,
    transformAll Sample.emitters Sample.petsDocument (Sample.context 3 false) = Ok out
    /\ registryOf Sample.emitters Sample.petsDocument (Sample.context 3 false) <> []
    /\ assoc (lit "handlers") out = Some actual
    /\ actual <> handlersSpecified Sample.emitters Sample.petsDocument
    /\ actual <> trim (handlersSpecified Sample.emitters Sample.petsDocument).
Proof.
  eexists. eexists. split; [vm_compute; reflexivity|].
  split; [vm_compute; discriminate|].
  split; [vm_compute; reflexivity|].
  split; vm_compute; discriminate.
Qed.

(** C3, amended.  When the operation registry is not empty, the [handlers]
    section is the trimmed concatenation of one entry per path of the paths
    node, in the order of the document; the entry of a path holds one member
    per key of its Path Item that belongs to the closed set of HTTP methods,
    in the order the keys have in the Path Item; keys outside the set yield
    no member, and a method the Path Item lacks yields none. *)
Theorem handlers_section
    (E : LeafEmitters) (schema : value) (ctx : GlobalContext) :
  shortCircuits ctx = false ->
  wellFormed E schema ctx = true ->
  registryOf E schema ctx <> [] ->
  exists out,
    transformAll E schema ctx = Ok out
    /\ assoc (lit "handlers") out
       = Some (trim
           (flat_map
              (fun pm : jsstring * value =>
                 let (path, methods) := pm in
                 handlersOpen (getOperationIdFromPath E path)
                 ++ flat_map
                      (fun mo : jsstring * value =>
                         let (method, op) := mo in
                         handlersMember method (getOperationId E op method path))
                      (filter (fun mo => includes httpMethods (fst mo))
                              (entriesOf methods))
                 ++ handlersClose)
              (entriesOf (prop schema "paths")))).
Proof.
  intros Hraw Hwf Hreg.
  exists (trimmed (documentSections E schema ctx)). split.
  - now apply transformAll_document.
  - rewrite assoc_trimmed, documentSections_handlers.
    destruct (registryOf E schema ctx); [contradiction|].
    simpl option_map. do 2 f_equal. unfold handlersText.
    apply flat_map_ext. intros [path methods]. unfold handlersEntry, handlerMembers.
    cbn [fst snd]. do 2 f_equal. apply flat_map_ext. now intros [method op].
Qed.

Lemma handlers_section_witness :
  exists out,
    transformAll Sample.emitters Sample.petsDocument (Sample.context 3 false) = Ok out
    /\ assoc (lit "handlers") out
       = Some (dquote ++ lit "/pets" ++ dquote ++ lit ": {" ++ nl
               ++ handlersMember (lit "post") (lit "addPet")
               ++ handlersMember (lit "get") (lit "getPets")
               ++ lit " }").
Proof.
  apply (handlers_section Sample.emitters Sample.petsDocument (Sample.context 3 false)).
  - reflexivity.
  - reflexivity.
  - vm_compute. discriminate.
Defined.

(* ================================================================== *)
(** ** Which sections the output has *)
(* ================================================================== *)

Lemma transformSchema_runs (T : SectionTransformers) (schema : value)
    (ctx : GlobalContext) :
  truthy schema = true ->
  transformSchema T schema ctx
  = Ok (let base :=
          [(lit "paths",
            if truthy (prop schema "paths")
            then transformPathsObject T (prop schema "paths") ctx else []);
           (lit "webhooks",
            if truthy (prop schema "webhooks")
            then transformWebhooksObject T (prop schema "webhooks") ctx else []);
           (lit "components",
            if truthy (prop schema "components")
            then transformComponentsObject T (prop schema "components") ctx else [])] in
        if truthy (prop schema "paths")
        then Object_assign base (transformExpress T (prop schema "paths") ctx)
        else base).
Proof.
  intros Ht. unfold transformSchema. rewrite Ht. cbv iota beta delta [negb].
  pose proof (truthy_not_nullish _ Ht) as Hn.
  rewrite (get_ok schema "paths" Hn), (get_ok schema "webhooks" Hn),
    (get_ok schema "components" Hn).
  cbv beta iota zeta delta [bind].
  destruct (truthy (prop schema "paths"));
    destruct (truthy (prop schema "webhooks"));
    destruct (truthy (prop schema "components")); reflexivity.
Qed.

Lemma Object_assign_keeps (k : jsstring) (source target : Output) :
  assoc k target <> None -> assoc k (Object_assign target source) <> None.
Proof.
  unfold Object_assign. rewrite assign_all_lookup. intros H.
  destruct (assoc k (rev source)); [discriminate | exact H].
Qed.

(** C4, as stated, fails.  On the empty document [{}] with version 3,
    [transformAll] returns a record in which [webhooks], [handlers],
    [definitions], [parameters] and [responses] are not names at all. *)
Lemma absent_sections_counterexample :
  exists out,
    transformAll Sample.emitters Sample.emptyDocument (Sample.context 3 false) = Ok out
    /\ assoc (lit "webhooks") out = None
    /\ assoc (lit "handlers") out = None
    /\ assoc (lit "definitions") out = None
    /\ assoc (lit "parameters") out = None
    /\ assoc (lit "responses") out = None.
Proof. eexists. repeat split; vm_compute; reflexivity. Qed.

(** C4, amended.  In [transformAll] with raw-schema mode off, [paths],
    [operations] and [express] are always names of the output, and
    [components] is one when the version is 3; a document without paths
    gives the empty string for [paths], [operations] and [express], and a
    version-3 document without components gives the empty string for
    [components].  [webhooks] is never a name of that output; [handlers] is
    none when the registry is empty; [definitions], [parameters] and
    [responses] are none when the document lacks the collection.  In
    [transformSchema], on a document that is there, [paths], [webhooks] and
    [components] are always names of the output, and a document without
    paths gives the empty string for each of the three whose source is
    absent. *)
Theorem sections_present
    (E : LeafEmitters) (T : SectionTransformers) (schema : value)
    (ctx : GlobalContext) :
  rawSchema ctx = false ->
  wellFormed E schema ctx = true ->
  (exists out,
     transformAll E schema ctx = Ok out
     /\ assoc (lit "paths") out = Some (trim (pathsText E schema ctx))
     /\ assoc (lit "operations") out = Some (trim (operationsText E schema ctx))
     /\ assoc (lit "express") out = Some (trim (expressSectionText E schema ctx))
     /\ (truthy (prop schema "paths") = false ->
         assoc (lit "paths") out = Some []
         /\ assoc (lit "operations") out = Some []
         /\ assoc (lit "express") out = Some [])
     /\ (version ctx = 3%Z ->
         assoc (lit "components") out = Some (trim (componentsText E schema ctx))
         /\ (truthy (prop schema "components") = false ->
             assoc (lit "components") out = Some []))
     /\ assoc (lit "webhooks") out = None
     /\ (registryOf E schema ctx = [] -> assoc (lit "handlers") out = None)
     /\ (forall name,
           In name ["definitions"; "parameters"; "responses"]%string ->
           truthy (prop schema name) = false -> assoc (lit name) out = None))
  /\ (truthy schema = true ->
      exists out,
        transformSchema T schema ctx = Ok out
        /\ assoc (lit "paths") out <> None
        /\ assoc (lit "webhooks") out <> None
        /\ assoc (lit "components") out <> None
        /\ (truthy (prop schema "paths") = false ->
            assoc (lit "paths") out = Some []
            /\ (truthy (prop schema "webhooks") = false ->
                assoc (lit "webhooks") out = Some [])
            /\ (truthy (prop schema "components") = false ->
                assoc (lit "components") out = Some []))).
Proof.
  intros Hraw Hwf. split.
  - exists (trimmed (documentSections E schema ctx)).
    split; [apply transformAll_document;
            [exact Hwf | now apply shortCircuits_not_raw]|].
    rewrite !assoc_trimmed, documentSections_paths, documentSections_operations,
      documentSections_express, documentSections_handlers.
    repeat split.
    + destruct (nothing_without_paths E schema ctx H) as [-> _]. reflexivity.
    + unfold operationsText.
      destruct (nothing_without_paths E schema ctx H) as [_ ->]. reflexivity.
    + unfold expressSectionText.
      destruct (nothing_without_paths E schema ctx H) as [_ ->]. reflexivity.
    + rewrite documentSections_version by reflexivity.
      unfold versionSections. rewrite H. reflexivity.
    + intros Hc. rewrite documentSections_version by reflexivity.
      unfold versionSections, componentsText. rewrite H, Hc. reflexivity.
    + now rewrite documentSections_other.
    + intros ->. reflexivity.
    + intros name Hname Hfalsy.
      assert (Hin : includes versionKeys (lit name) = true)
        by (destruct Hname as [<-|[<-|[<-|[]]]]; reflexivity).
      rewrite assoc_trimmed, (documentSections_version E schema ctx _ Hin).
      unfold versionSections.
      destruct (version ctx =? 2)%Z eqn:H2.
      * destruct Hname as [<-|[<-|[<-|[]]]];
          rewrite !assoc_app;
          rewrite ?(sectionIf_falsy _ _ _ Hfalsy);
          rewrite ?sectionIf_fresh by reflexivity; reflexivity.
      * destruct (version ctx =? 3)%Z; [|reflexivity].
        destruct Hname as [<-|[<-|[<-|[]]]]; reflexivity.
  - intros Ht. eexists. split; [apply (transformSchema_runs T schema ctx Ht)|].
    cbv zeta.
    destruct (truthy (prop schema "paths")) eqn:Hp.
    + repeat split; try discriminate;
        apply Object_assign_keeps; simpl; discriminate.
    + repeat split; try (simpl; discriminate).
      * intros Hw. rewrite Hw. reflexivity.
      * intros Hc. rewrite Hc. reflexivity.
Qed.

Lemma sections_present_witness :
  (exists out,
     transformAll Sample.emitters Sample.emptyDocument (Sample.context 3 false) = Ok out
     /\ assoc (lit "paths") out = Some []
     /\ assoc (lit "operations") out = Some []
     /\ assoc (lit "express") out = Some []
     /\ (false = false ->
         assoc (lit "paths") out = Some []
         /\ assoc (lit "operations") out = Some []
         /\ assoc (lit "express") out = Some [])
     /\ (3%Z = 3%Z ->
         assoc (lit "components") out = Some []
         /\ (false = false -> assoc (lit "components") out = Some []))
     /\ assoc (lit "webhooks") out = None
     /\ (@nil (jsstring * RegistryEntry) = [] -> assoc (lit "handlers") out = None)
     /\ (forall name,
           In name ["definitions"; "parameters"; "responses"]%string ->
           truthy (prop Sample.emptyDocument name) = false ->
           assoc (lit name) out = None))
  /\ (true = true ->
      exists out,
        transformSchema Sample.transformers Sample.emptyDocument
          (Sample.context 3 false) = Ok out
        /\ assoc (lit "paths") out <> None
        /\ assoc (lit "webhooks") out <> None
        /\ assoc (lit "components") out <> None
        /\ (false = false ->
            assoc (lit "paths") out = Some []
            /\ (false = false -> assoc (lit "webhooks") out = Some [])
            /\ (false = false -> assoc (lit "components") out = Some []))).
Proof.
  apply (sections_present Sample.emitters Sample.transformers Sample.emptyDocument
           (Sample.context 3 false)); reflexivity.
Defined.

(* ================================================================== *)
(** ** The express section *)
(* ================================================================== *)

(** C5, as stated, fails.  The registry is a plain object, and
    [Object.keys] lists the identifiers that are array indices first, in
    ascending order.  On a document whose operations are discovered in the
    order [b], [2], [1] the records of the [express] section come in the
    order [1], [2], [b]. *)
Lemma express_discovery_order_counterexample :
  exists out actual,
    transformAll Sample.emitters Sample.numberedDocument (Sample.context 3 false)
    = Ok out
    /\ registryOf Sample.emitters Sample.numberedDocument (Sample.context 3 false)
       = assign_all [] Sample.numberedDiscovered
    /\ map fst Sample.numberedDiscovered = [lit "b"; lit "2"; lit "1"]
    /\ assoc (lit "express") out = Some actual
    /\ actual <> expressSpecified Sample.emitters Sample.numberedDocument
                   (Sample.context 3 false) Sample.numberedDiscovered
    /\ actual <> trim (expressSpecified Sample.emitters Sample.numberedDocument
                         (Sample.context 3 false) Sample.numberedDiscovered).
Proof.
  eexists. eexists. split; [vm_compute; reflexivity|].
  split; [vm_compute; reflexivity|].
  split; [reflexivity|].
  split; [vm_compute; reflexivity|].
  split; vm_compute; discriminate.
Qed.

(** C5, amended.  Let the paths emitter register the operations it discovers
    by the assignments [operations[id] = { operation, pathItem }], in the
    order of discovery.  The [express] section is the trimmed concatenation
    of one record per identifier, in the order [Object.keys] lists the
    registry: the identifiers that are array indices first, in ascending
    numeric order, then the other identifiers in the order the operations
    were first discovered; the entry of an identifier is the one registered
    last under it.  The record is indexed by the identifier and has the four
    members [responses] (the response types of the operation's responses
    map, or [void] when the operation declares none), [request] (the request
    type and the query-string type of the operation, computed in the
    caller's context with the owning Path Item and the global parameters,
    inside [expressRequest<Request<...>, SLocals, ...>]), [response] (a
    [Response] of the section's own [responses] member at that identifier)
    and [handler] (a function of the entry's [request] and [response] to
    [void | Promise<void>]). *)
Theorem express_section
    (E : LeafEmitters) (schema : value) (ctx : GlobalContext)
    (discovered : list (jsstring * RegistryEntry)) :
  shortCircuits ctx = false ->
  wellFormed E schema ctx = true ->
  registryOf E schema ctx = assign_all [] discovered ->
  let components := prop schema "components" in
  let pool :=
    if truthy components && truthy (prop components "parameters")
    then prop components "parameters"
    else prop schema "parameters" in
  let entry (id : jsstring) (e : RegistryEntry) :=
    let typeArgs :=
      {| version := version ctx;
         immutableTypes := immutableTypes ctx;
         rawSchema := rawSchema ctx;
         required := required ctx;
         globalParameters := pool;
         ctx_pathItem := pathItem e;
         additionalOptions := additionalOptions ctx |} in
    let responses := prop (operation e) "responses" in
    lit " " ++ dquote ++ id ++ dquote ++ lit ": {" ++ nl
    ++ lit "    responses: "
    ++ (if truthy responses then getResponseTypes E id responses else lit "void")
    ++ lit ";" ++ nl
    ++ lit "    request: expressRequest<Request<"
    ++ operationRequestType E id (operation e) typeArgs
    ++ lit ">, SLocals, " ++ queryStringType E id (operation e) typeArgs
    ++ lit ">;" ++ nl
    ++ lit "    response: Response<express<SLocals, RLocals>[" ++ dquote ++ id ++ dquote
    ++ lit "][" ++ dquote ++ lit "responses" ++ dquote ++ lit "]>;" ++ nl
    ++ lit "    handler: (req: express<SLocals, RLocals>[" ++ dquote ++ id ++ dquote
    ++ lit "][" ++ dquote ++ lit "request" ++ dquote
    ++ lit "], res: express<SLocals, RLocals>[" ++ dquote ++ id ++ dquote
    ++ lit "][" ++ dquote ++ lit "response" ++ dquote
    ++ lit "]) => void | Promise<void>;" ++ nl
    ++ lit "}" ++ nl in
  exists out indices,
    transformAll E schema ctx = Ok out
    /\ StronglySorted N.lt indices
    /\ (forall n, In n indices
                  <-> exists id, In id (map fst discovered) /\ arrayIndex id = Some n)
    /\ assoc (lit "express") out
       = Some (trim
           (flat_map (fun id => match assoc id (rev discovered) with
                                | Some e => entry id e
                                | None => []
                                end)
                     (map decimal indices
                      ++ new_Set (filter notIndex (map fst discovered))))).
Proof.
  intros Hraw Hwf Hreg components pool entry.
  destruct (assign_all_names discovered [] [] [] eq_refl)
    as (indices & Hkeys & Hsorted & Hin);
    [constructor | constructor | constructor |].
  exists (trimmed (documentSections E schema ctx)), indices.
  split; [now apply transformAll_document|].
  split; [exact Hsorted|]. split.
  { intros n. rewrite Hin. simpl. tauto. }
  rewrite assoc_trimmed, documentSections_express.
  assert (Hkeys' : map fst (assign_all [] discovered)
                   = map decimal indices
                     ++ new_Set (filter notIndex (map fst discovered))).
  { rewrite Hkeys. f_equal. exact (filter_true _). }
  unfold expressSectionText, perOperation. rewrite Hreg, Hkeys'.
  simpl option_map. do 2 f_equal.
  apply flat_map_ext. intros id. rewrite assign_all_lookup.
  destruct (assoc id (rev discovered)) as [e|]; [|reflexivity].
  unfold expressText, operationContext. rewrite globalParams_cases. reflexivity.
Qed.

Lemma express_section_witness :
  exists out indices,
    transformAll Sample.emitters Sample.numberedDocument (Sample.context 3 false)
    = Ok out
    /\ StronglySorted N.lt indices
    /\ (forall n, In n indices
                  <-> exists id, In id [lit "b"; lit "2"; lit "1"]
                                 /\ arrayIndex id = Some n)
    /\ assoc (lit "express") out
       = Some (trim
           (flat_map (fun id => match assoc id (rev Sample.numberedDiscovered) with
                                | Some e =>
                                    expressRecord id
                                      (if truthy (prop (operation e) "responses")
                                       then id ++ lit "Responses" else lit "void")
                                      (id ++ lit "Request") (id ++ lit "Query")
                                | None => []
                                end)
                     (map decimal indices ++ [lit "b"]))).
Proof.
  apply (express_section Sample.emitters Sample.numberedDocument
           (Sample.context 3 false) Sample.numberedDiscovered).
  - reflexivity.
  - reflexivity.
  - vm_compute. reflexivity.
Defined.

(* ================================================================== *)
(** ** Versions other than 2 and 3 *)
(* ================================================================== *)

(** C6.  When the version is neither 2 nor 3 (raw-schema mode off),
    [transformAll] throws nothing and returns a record in which none of
    [definitions], [parameters], [responses], [components] is a name; the
    record holds exactly the version-independent sections [paths],
    [operations], [express] and, when the registry is not empty,
    [handlers], each with its usual trimmed text. *)
Theorem unknown_version_sections
    (E : LeafEmitters) (schema : value) (ctx : GlobalContext) :
  rawSchema ctx = false ->
  version ctx <> 2%Z ->
  version ctx <> 3%Z ->
  wellFormed E schema ctx = true ->
  exists out,
    transformAll E schema ctx = Ok out
    /\ out = [(lit "paths", trim (pathsText E schema ctx));
              (lit "operations", trim (operationsText E schema ctx));
              (lit "express", trim (expressSectionText E schema ctx))]
             ++ match registryOf E schema ctx with
                | [] => []
                | _ :: _ => [(lit "handlers", trim (handlersText E schema))]
                end
    /\ (forall k,
          In k (map lit ["definitions"; "parameters"; "responses"; "components"]%string) ->
          assoc k out = None).
Proof.
  intros Hraw H2 H3 Hwf.
  assert (Hshape :
    trimmed (documentSections E schema ctx)
    = [(lit "paths", trim (pathsText E schema ctx));
       (lit "operations", trim (operationsText E schema ctx));
       (lit "express", trim (expressSectionText E schema ctx))]
      ++ match registryOf E schema ctx with
         | [] => []
         | _ :: _ => [(lit "handlers", trim (handlersText E schema))]
         end).
  { unfold documentSections, versionSections, handlersSections.
    apply Z.eqb_neq in H2, H3. rewrite H2, H3.
    now destruct (registryOf E schema ctx). }
  exists (trimmed (documentSections E schema ctx)).
  split; [apply transformAll_document;
          [exact Hwf | now apply shortCircuits_not_raw]|].
  split; [exact Hshape|].
  intros k Hk. rewrite assoc_trimmed.
  rewrite documentSections_version
    by (destruct Hk as [<-|[<-|[<-|[<-|[]]]]]; reflexivity).
  unfold versionSections. apply Z.eqb_neq in H2, H3. now rewrite H2, H3.
Qed.

Lemma unknown_version_sections_witness :
  exists out,
    transformAll Sample.emitters Sample.petsDocument (Sample.context 4 false) = Ok out
    /\ out = [(lit "paths", trim (pathsText Sample.emitters Sample.petsDocument
                                    (Sample.context 4 false)));
              (lit "operations", trim (operationsText Sample.emitters Sample.petsDocument
                                         (Sample.context 4 false)));
              (lit "express", trim (expressSectionText Sample.emitters Sample.petsDocument
                                      (Sample.context 4 false)));
              (lit "handlers", trim (handlersText Sample.emitters Sample.petsDocument))]
    /\ (forall k,
          In k (map lit ["definitions"; "parameters"; "responses"; "components"]%string) ->
          assoc k out = None).
Proof.
  apply (unknown_version_sections Sample.emitters Sample.petsDocument
           (Sample.context 4 false)).
  - reflexivity.
  - simpl. lia.
  - simpl. lia.
  - reflexivity.
Defined.

(** C9.  When [rawSchema] is set and the version is neither 2 nor 3, the
    raw-schema block does not return: the output has the [paths],
    [operations] and [express] sections of full-document processing, the
    input being read as a document, and neither of the two raw-mode
    sections. *)
Theorem raw_schema_other_version_falls_through
    (E : LeafEmitters) (schema : value) (ctx : GlobalContext) :
  rawSchema ctx = true ->
  version ctx <> 2%Z ->
  version ctx <> 3%Z ->
  wellFormed E schema ctx = true ->
  rawSchemaMode E schema ctx [] = Ok None
  /\ exists out,
       transformAll E schema ctx = Ok out
       /\ assoc (lit "paths") out = Some (trim (pathsText E schema ctx))
       /\ assoc (lit "operations") out = Some (trim (operationsText E schema ctx))
       /\ assoc (lit "express") out = Some (trim (expressSectionText E schema ctx))
       /\ assoc (lit "definitions") out = None
       /\ assoc (lit "schemas") out = None.
Proof.
  intros Hraw H2 H3 Hwf.
  pose proof (shortCircuits_other_version ctx H2 H3) as Hsc.
  destruct (wellFormed_parts E schema ctx Hwf) as (Hs & _).
  split; [now apply rawSchemaMode_falls_through|].
  exists (trimmed (documentSections E schema ctx)).
  split; [now apply transformAll_document|].
  rewrite !assoc_trimmed, documentSections_paths, documentSections_operations,
    documentSections_express.
  repeat split.
  - rewrite documentSections_version by reflexivity.
    unfold versionSections. apply Z.eqb_neq in H2, H3. now rewrite H2, H3.
  - now rewrite documentSections_other.
Qed.

Lemma raw_schema_other_version_falls_through_witness :
  rawSchemaMode Sample.emitters Sample.petsDocument (Sample.context 4 true) [] = Ok None
  /\ exists out,
       transformAll Sample.emitters Sample.petsDocument (Sample.context 4 true) = Ok out
       /\ assoc (lit "paths") out = Some (lit "paths")
       /\ assoc (lit "operations") out
          = Some (trim (operationsText Sample.emitters Sample.petsDocument
                          (Sample.context 4 true)))
       /\ assoc (lit "express") out
          = Some (trim (expressSectionText Sample.emitters Sample.petsDocument
                          (Sample.context 4 true)))
       /\ assoc (lit "definitions") out = None
       /\ assoc (lit "schemas") out = None.
Proof.
  apply (raw_schema_other_version_falls_through Sample.emitters Sample.petsDocument
           (Sample.context 4 true)).
  - reflexivity.
  - simpl. lia.
  - simpl. lia.
  - reflexivity.
Defined.

(* ================================================================== *)
(** ** The registry and the sections built from it *)
(* ================================================================== *)

(** C10.  With raw-schema mode off, [operations] and [express] are always
    names of the output, with the empty string as value when the registry
    is empty, and [handlers] is a name of the output exactly when the
    registry is not empty. *)
Theorem registry_sections_presence
    (E : LeafEmitters) (schema : value) (ctx : GlobalContext) :
  rawSchema ctx = false ->
  wellFormed E schema ctx = true ->
  exists out,
    transformAll E schema ctx = Ok out
    /\ assoc (lit "operations") out <> None
    /\ assoc (lit "express") out <> None
    /\ (registryOf E schema ctx = [] ->
        assoc (lit "operations") out = Some [] /\ assoc (lit "express") out = Some [])
    /\ (assoc (lit "handlers") out <> None <-> registryOf E schema ctx <> []).
Proof.
  intros Hraw Hwf.
  exists (trimmed (documentSections E schema ctx)).
  split; [apply transformAll_document;
          [exact Hwf | now apply shortCircuits_not_raw]|].
  rewrite !assoc_trimmed, documentSections_operations, documentSections_express,
    documentSections_handlers.
  split; [discriminate|]. split; [discriminate|]. split.
  - unfold operationsText, expressSectionText. intros ->. split; reflexivity.
  - destruct (registryOf E schema ctx); simpl; split; congruence.
Qed.

Lemma registry_sections_presence_witness :
  exists out,
    transformAll Sample.emitters Sample.petsDocument (Sample.context 2 false) = Ok out
    /\ assoc (lit "operations") out <> None
    /\ assoc (lit "express") out <> None
    /\ (registryOf Sample.emitters Sample.petsDocument (Sample.context 2 false) = [] ->
        assoc (lit "operations") out = Some [] /\ assoc (lit "express") out = Some [])
    /\ (assoc (lit "handlers") out <> None
        <-> registryOf Sample.emitters Sample.petsDocument (Sample.context 2 false) <> []).
Proof.
  apply (registry_sections_presence Sample.emitters Sample.petsDocument
           (Sample.context 2 false)); reflexivity.
Defined.

(* ================================================================== *)
(** ** The final cleanup *)
(* ================================================================== *)

(** C7, as stated, fails.  In raw-schema mode the function returns before
    the cleanup: on [{ A: {}, B: {} }] with version 3 the [schemas] section
    is what the emitter returned, line feed at the end included. *)
Lemma raw_output_untrimmed_counterexample :
  exists out v,
    transformAll Sample.emitters Sample.flatSchemas (Sample.context 3 true) = Ok out
    /\ assoc (lit "schemas") out = Some v
    /\ ~ no_trailing_ws v.
Proof.
  eexists. eexists. split; [vm_compute; reflexivity|].
  split; [vm_compute; reflexivity|].
  vm_compute. discriminate.
Qed.

(** C7, amended.  Whenever the raw-schema block does not return ([rawSchema]
    unset, or a version that is neither 2 nor 3), every value of the record
    [transformAll] returns has no leading and no trailing whitespace,
    whatever the collaborators returned. *)
Theorem output_trimmed
    (E : LeafEmitters) (schema : value) (ctx : GlobalContext) (out : Output) :
  shortCircuits ctx = false ->
  transformAll E schema ctx = Ok out ->
  forall k v, In (k, v) out -> no_leading_ws v /\ no_trailing_ws v.
Proof.
  intros Hraw Hrun k v Hin.
  destruct (transformAll_cleaned E schema ctx out Hraw Hrun) as (out0 & _ & ->).
  unfold trimmed in Hin. apply in_map_iff in Hin as ([k0 v0] & Heq & _).
  injection Heq as _ <-. split; [apply trim_no_leading | apply trim_no_trailing].
Qed.

Lemma output_trimmed_witness :
  transformAll Sample.emitters Sample.componentsDocument (Sample.context 3 false)
  = Ok (trimmed (documentSections Sample.emitters Sample.componentsDocument
                   (Sample.context 3 false)))
  /\ no_leading_ws (trim (componentsText Sample.emitters Sample.componentsDocument
                            (Sample.context 3 false)))
  /\ no_trailing_ws (trim (componentsText Sample.emitters Sample.componentsDocument
                             (Sample.context 3 false))).
Proof.
  assert (Hrun :
    transformAll Sample.emitters Sample.componentsDocument (Sample.context 3 false)
    = Ok (trimmed (documentSections Sample.emitters Sample.componentsDocument
                     (Sample.context 3 false))))
    by (vm_compute; reflexivity).
  split; [exact Hrun|].
  apply (output_trimmed Sample.emitters Sample.componentsDocument
           (Sample.context 3 false) _ eq_refl Hrun (lit "components")).
  right. left. reflexivity.
Defined.

(* ================================================================== *)
(** ** Determinism *)
(* ================================================================== *)

Lemma bind_cong {A B} (m m' : result A) (f g : A -> result B) :
  m = m' -> (forall a, f a = g a) -> bind m f = bind m' g.
Proof. intros -> H. destruct m'; simpl; [apply H | reflexivity]. Qed.

Section SameResults.

Variables E1 E2 : LeafEmitters.
Hypothesis same : sameResults E1 E2.

Ltac to_second :=
  destruct same as (H1 & H2 & H3 & H4 & H5 & H6 & H7 & H8 & H9 & H10 & H11 & H12 & H13);
  repeat (rewrite ?H1, ?H2, ?H3, ?H4, ?H5, ?H6, ?H7, ?H8, ?H9, ?H10, ?H11, ?H12, ?H13;
          first [ reflexivity
                | apply bind_cong; [|intro]
                | apply for_of_ext; intros
                | match goal with
                  | |- (if ?c then _ else _) = (if ?c then _ else _) => destruct c
                  | |- (let (_, _) := ?p in _) = (let (_, _) := ?p in _) => destruct p
                  | |- (let (_, _) := ?x in _) _ = (let (_, _) := ?x in _) _ => destruct x
                  end ]).

Lemma rawSchemaMode_same (schema : value) (ctx : GlobalContext) (out : Output) :
  rawSchemaMode E1 schema ctx out = rawSchemaMode E2 schema ctx out.
Proof. unfold rawSchemaMode. to_second. Qed.

Lemma pathsSection_same (schema : value) (ctx : GlobalContext)
    (operations : registry) (out : Output) :
  pathsSection E1 schema ctx operations out = pathsSection E2 schema ctx operations out.
Proof. unfold pathsSection. to_second. Qed.

Lemma versionSwitch_same (readonly : jsstring) (schema : value) (ctx : GlobalContext)
    (out : Output) :
  versionSwitch E1 readonly schema ctx out = versionSwitch E2 readonly schema ctx out.
Proof. unfold versionSwitch, version2, version3, schemaMapSection. to_second. Qed.

Lemma operationsSection_same (readonly : jsstring) (schema : value)
    (ctx : GlobalContext) (operations : registry) (out : Output) :
  operationsSection E1 readonly schema ctx operations out
  = operationsSection E2 readonly schema ctx operations out.
Proof. unfold operationsSection. to_second. Qed.

Lemma expressSection_same (schema : value) (ctx : GlobalContext)
    (operations : registry) (out : Output) :
  expressSection E1 schema ctx operations out
  = expressSection E2 schema ctx operations out.
Proof. unfold expressSection, handlersSection. to_second. Qed.

End SameResults.

(** [transformAll] uses its collaborators through their results only:
    collaborators that return the same results on the same arguments give
    the same output. *)
Lemma transformAll_respects_collaborators
    (E1 E2 : LeafEmitters) (schema : value) (ctx : GlobalContext) :
  sameResults E1 E2 ->
  transformAll E1 schema ctx = transformAll E2 schema ctx.
Proof.
  intros Hsame. unfold transformAll.
  rewrite (rawSchemaMode_same E1 E2 Hsame).
  apply bind_cong; [reflexivity|]. intros [early|]; [reflexivity|].
  rewrite (pathsSection_same E1 E2 Hsame).
  apply bind_cong; [reflexivity|]. intros [out operations].
  destruct Hsame as (Hreadonly & Hrest).
  rewrite Hreadonly.
  rewrite (versionSwitch_same E1 E2 (conj Hreadonly Hrest)).
  apply bind_cong; [reflexivity|]. intros out1.
  rewrite (operationsSection_same E1 E2 (conj Hreadonly Hrest)).
  apply bind_cong; [reflexivity|]. intros out2.
  rewrite (expressSection_same E1 E2 (conj Hreadonly Hrest)).
  reflexivity.
Qed.


(* ================================================================== *)
(** ** Further properties: when the engine throws *)
(* ================================================================== *)

Lemma for_of_throws {A S} (x : A) (l : list A) (body : A -> S -> result S) (s : S) :
  In x l -> (forall t, body x t = TypeError) -> for_of l body s = TypeError.
Proof.
  intros Hin Hx. revert s. induction l as [|y l IH]; intros s; simpl.
  - destruct Hin.
  - destruct Hin as [->|Hin].
    + now rewrite Hx.
    + destruct (body y s); simpl; [now apply IH | reflexivity].
Qed.

Lemma forallb_false_witness {A} (f : A -> bool) (l : list A) :
  forallb f l = false -> exists x, In x l /\ f x = false.
Proof.
  induction l as [|a l IH]; simpl; [discriminate|].
  destruct (f a) eqn:Ha; simpl.
  - intros H. destruct (IH H) as (x & Hin & Hx). exists x. auto.
  - intros _. exists a. auto.
Qed.

Lemma get_throws (v : value) (name : string) :
  nullish v = true -> get v name = TypeError.
Proof. destruct v; simpl; try discriminate; reflexivity. Qed.

Lemma entries_throw (v : value) :
  nullish v = true -> Object_entries v = TypeError.
Proof. destruct v; simpl; try discriminate; reflexivity. Qed.

Lemma transformAll_nullish (E : LeafEmitters) (schema : value) (ctx : GlobalContext) :
  nullish schema = true -> transformAll E schema ctx = TypeError.
Proof.
  intros Hn. unfold transformAll, rawSchemaMode, pathsSection, Object_keys.
  rewrite (entries_throw _ Hn), (get_throws _ "paths" Hn).
  destruct (rawSchema ctx); reflexivity.
Qed.

Lemma operationsSection_throws (E : LeafEmitters) (readonly : jsstring)
    (schema : value) (ctx : GlobalContext) (operations : registry) (out : Output) :
  NoDup (map fst operations) ->
  forallb (fun ie => negb (nullish (operation (snd ie)))) operations = false ->
  operationsSection E readonly schema ctx operations out = TypeError.
Proof.
  intros Hnd Hbad. apply forallb_false_witness in Hbad as ([id e] & Hin & He).
  simpl in He. apply negb_false_iff in He.
  unfold operationsSection.
  replace (negb _) with true by (destruct operations; [destruct Hin | reflexivity]).
  apply (for_of_throws id).
  - apply in_map_iff. now exists (id, e).
  - intros t. unfold registryGet. rewrite (assoc_distinct id e operations Hnd Hin).
    rewrite bind_Ok. now rewrite (get_throws _ "description" He).
Qed.

Lemma handlersSection_throws (E : LeafEmitters) (schema : value) (out : Output) :
  nullish schema = false ->
  forallb (fun pm => negb (nullish (snd pm))) (entriesOf (prop schema "paths")) = false ->
  handlersSection E schema out = TypeError.
Proof.
  intros Hs Hbad. apply forallb_false_witness in Hbad as ([path methods] & Hin & Hm).
  simpl in Hm. apply negb_false_iff in Hm.
  unfold handlersSection. rewrite (get_ok _ "paths" Hs), bind_Ok.
  destruct (Object_entries (prop schema "paths")) as [entries|] eqn:Hentries;
    [|reflexivity].
  rewrite bind_Ok. unfold entriesOf in Hin. rewrite Hentries in Hin.
  apply (for_of_throws (path, methods)); [exact Hin|].
  intros t. cbv beta iota zeta. now rewrite (entries_throw _ Hm).
Qed.

Lemma transformAll_ill_formed (E : LeafEmitters) (schema : value) (ctx : GlobalContext) :
  shortCircuits ctx = false ->
  NoDup (map fst (registryOf E schema ctx)) ->
  wellFormed E schema ctx = false ->
  transformAll E schema ctx = TypeError.
Proof.
  intros Hraw Hnd Hwf.
  destruct (nullish schema) eqn:Hs; [now apply transformAll_nullish|].
  unfold wellFormed in Hwf. rewrite Hs in Hwf. simpl in Hwf.
  unfold transformAll.
  rewrite (rawSchemaMode_falls_through E schema ctx Hs Hraw), bind_Ok.
  rewrite (pathsSection_spec E schema ctx Hs), bind_Ok.
  fold (readonlyOf E ctx).
  rewrite (versionSwitch_spec E schema ctx Hs)
    by (intros k [<-|[<-|[<-|[<-|[]]]]]; reflexivity).
  rewrite bind_Ok.
  destruct (forallb (fun ie => negb (nullish (operation (snd ie))))
                    (registryOf E schema ctx)) eqn:Hops.
  - rewrite (operationsSection_spec E schema ctx _ Hs Hops)
      by (rewrite assoc_app; simpl;
          rewrite (versionSections_fresh E schema ctx) by reflexivity; reflexivity).
    rewrite bind_Ok. simpl in Hwf.
    assert (Hitems :
      negb (List.length (map fst (registryOf E schema ctx)) =? 0)%nat = true
      /\ forallb (fun pm => negb (nullish (snd pm)))
                 (entriesOf (prop schema "paths")) = false).
    { destruct (registryOf E schema ctx); [discriminate | split; [reflexivity | exact Hwf]]. }
    destruct Hitems as [Hguard Hitems].
    unfold expressSection. rewrite Hguard.
    match goal with
    | |- bind (bind ?loop _) _ = _ =>
        destruct loop as [out1|]; [|reflexivity]
    end.
    rewrite bind_Ok.
    now rewrite (handlersSection_throws E schema out1 Hs Hitems).
  - now rewrite (operationsSection_throws E _ schema ctx _ _ Hnd Hops).
Qed.

(** X1 (error behaviour).  A document that is [undefined] or [null] makes
    [transformAll] throw a [TypeError] in every mode and for every version:
    raw-schema mode throws in [Object.keys(schema)], full-document
    processing in [schema.paths]. *)
Theorem nullish_document_throws
    (E : LeafEmitters) (schema : value) (ctx : GlobalContext) :
  nullish schema = true -> transformAll E schema ctx = TypeError.
Proof.
  intros Hn. unfold transformAll.
  destruct (rawSchema ctx) eqn:Hraw.
  - unfold rawSchemaMode, Object_keys.
    now rewrite Hraw, (entries_throw _ Hn).
  - unfold rawSchemaMode, pathsSection.
    now rewrite Hraw, (get_throws _ "paths" Hn).
Qed.

Lemma nullish_document_throws_witness :
  transformAll Sample.emitters VNull (Sample.context 2 true) = TypeError.
Proof.
  apply (nullish_document_throws Sample.emitters VNull (Sample.context 2 true)).
  reflexivity.
Defined.

(** X2 (error behaviour).  When the raw-schema block does not return and
    the identifiers of the registry are distinct, [transformAll] throws a
    [TypeError] exactly on the inputs that are not well formed: a document
    that is [undefined] or [null], a registered operation that is, or, with
    a registry that is not empty, a Path Item that is. *)
Theorem throws_iff_ill_formed
    (E : LeafEmitters) (schema : value) (ctx : GlobalContext) :
  shortCircuits ctx = false ->
  NoDup (map fst (registryOf E schema ctx)) ->
  (transformAll E schema ctx = TypeError <-> wellFormed E schema ctx = false).
Proof.
  intros Hraw Hnd. split.
  - intros Hthrow. destruct (wellFormed E schema ctx) eqn:Hwf; [|reflexivity].
    rewrite (transformAll_document E schema ctx Hwf Hraw) in Hthrow. discriminate.
  - now apply transformAll_ill_formed.
Qed.

Lemma throws_iff_ill_formed_witness :
  transformAll Sample.eagerEmitters Sample.nullItemDocument (Sample.context 3 false)
  = TypeError
  <-> wellFormed Sample.eagerEmitters Sample.nullItemDocument (Sample.context 3 false)
      = false.
Proof.
  apply (throws_iff_ill_formed Sample.eagerEmitters Sample.nullItemDocument
           (Sample.context 3 false)).
  - reflexivity.
  - vm_compute. repeat constructor. simpl. tauto.
Defined.

(* ================================================================== *)
(** ** Further properties: the sections of full-document processing *)
(* ================================================================== *)

(** X3.  The [paths] section is the trimmed text the paths emitter returns
    on [schema.paths], and the empty string when the document has no paths
    node.  The emitter is called once, on the empty registry, in the
    caller's context with [globalParameters] replaced by
    [components.parameters] when the document has components with
    parameters, and by the root [parameters] otherwise, whatever the
    version.  The registry that call leaves is the one the later sections
    are built from: [operations] and [express] hold one entry per identifier
    of it, and [handlers] is there exactly when it is not empty. *)
Theorem paths_section
    (E : LeafEmitters) (schema : value) (ctx : GlobalContext) :
  shortCircuits ctx = false ->
  wellFormed E schema ctx = true ->
  let paths := prop schema "paths" in
  let components := prop schema "components" in
  let pool :=
    if truthy components && truthy (prop components "parameters")
    then prop components "parameters"
    else prop schema "parameters" in
  let emitted :=
    transformPathsObj E paths
      {| version := version ctx;
         immutableTypes := immutableTypes ctx;
         rawSchema := rawSchema ctx;
         required := required ctx;
         globalParameters := pool;
         ctx_pathItem := ctx_pathItem ctx;
         additionalOptions := additionalOptions ctx |}
      [] in
  let operations := if truthy paths then snd emitted else [] in
  exists out,
    transformAll E schema ctx = Ok out
    /\ assoc (lit "paths") out
       = Some (if truthy paths then trim (fst emitted) else [])
    /\ assoc (lit "operations") out
       = Some (trim (perOperation (operationText E schema ctx) operations))
    /\ assoc (lit "express") out
       = Some (trim (perOperation (expressText E schema ctx) operations))
    /\ (assoc (lit "handlers") out <> None <-> operations <> []).
Proof.
  intros Hraw Hwf paths components pool emitted operations.
  assert (Hresult : pathsResult E schema ctx
                    = if truthy paths then emitted else ([], [])).
  { unfold pathsResult. rewrite globalParams_cases. reflexivity. }
  assert (Hreg : registryOf E schema ctx = operations).
  { unfold registryOf, operations. rewrite Hresult. now destruct (truthy paths). }
  exists (trimmed (documentSections E schema ctx)).
  split; [now apply transformAll_document|].
  rewrite !assoc_trimmed, documentSections_paths, documentSections_operations,
    documentSections_express, documentSections_handlers.
  unfold operationsText, expressSectionText, pathsText. rewrite Hreg, Hresult.
  split; [now destruct (truthy paths)|].
  split; [reflexivity|]. split; [reflexivity|].
  destruct operations; simpl; split; congruence.
Qed.

Lemma paths_section_witness :
  exists out,
    transformAll Sample.probingEmitters Sample.pooledDocument (Sample.context 3 false)
    = Ok out
    /\ assoc (lit "paths") out = Some (lit "pool limit; required?")
    /\ assoc (lit "operations") out
       = Some (trim (operationEntry [] (lit "getPets")
                       (lit "item get; pool limit;" ++ nl)))
    /\ assoc (lit "express") out
       = Some (trim (expressRecord (lit "getPets") (lit "void")
                       (lit "getPetsRequest item get; pool limit;")
                       (lit "getPetsQuery item get; pool limit;")))
    /\ (assoc (lit "handlers") out <> None
        <-> [(lit "getPets",
              {| operation :=
                   prop (prop (prop Sample.pooledDocument "paths") "/pets") "get";
                 pathItem := prop (prop Sample.pooledDocument "paths") "/pets" |})]
            <> []).
Proof.
  apply (paths_section Sample.probingEmitters Sample.pooledDocument
           (Sample.context 3 false)); reflexivity.
Defined.

(** X4.  For version 2 (raw-schema mode off), [definitions] and
    [parameters] are names of the output exactly when the document has the
    collection, with the trimmed text of the schema-map emitter on the
    collection, [required] being the keys of the collection; [responses] is
    one exactly when the document has responses, with the trimmed text of
    the responses emitter in the caller's context; [components] is never a
    name. *)
Theorem version2_sections
    (E : LeafEmitters) (schema : value) (ctx : GlobalContext) :
  rawSchema ctx = false ->
  version ctx = 2%Z ->
  wellFormed E schema ctx = true ->
  let rendered (c : value) :=
    trim (transformSchemaObjMap E c (with_required ctx (new_Set (keysOf c)))) in
  exists out,
    transformAll E schema ctx = Ok out
    /\ assoc (lit "definitions") out
       = (if truthy (prop schema "definitions")
          then Some (rendered (prop schema "definitions")) else None)
    /\ assoc (lit "parameters") out
       = (if truthy (prop schema "parameters")
          then Some (rendered (prop schema "parameters")) else None)
    /\ assoc (lit "responses") out
       = (if truthy (prop schema "responses")
          then Some (trim (transformResponsesObj E (prop schema "responses") ctx))
          else None)
    /\ assoc (lit "components") out = None.
Proof.
  intros Hraw Hv Hwf rendered.
  exists (trimmed (documentSections E schema ctx)).
  split; [apply transformAll_document;
          [exact Hwf | now apply shortCircuits_not_raw]|].
  rewrite !assoc_trimmed.
  rewrite !(documentSections_version E schema ctx) by reflexivity.
  unfold versionSections, sectionIf, schemaMapOf, rendered. rewrite Hv. simpl Z.eqb.
  cbv iota.
  destruct (truthy (prop schema "definitions"));
    destruct (truthy (prop schema "parameters"));
    destruct (truthy (prop schema "responses"));
    repeat split; reflexivity.
Qed.

Lemma version2_sections_witness :
  exists out,
    transformAll Sample.emitters Sample.mixedDocument (Sample.context 2 false) = Ok out
    /\ assoc (lit "definitions") out = Some (lit "schemas required{Pet;}")
    /\ assoc (lit "parameters") out = Some (lit "schemas required{limit;}")
    /\ assoc (lit "responses") out = None
    /\ assoc (lit "components") out = None.
Proof.
  apply (version2_sections Sample.emitters Sample.mixedDocument (Sample.context 2 false));
    reflexivity.
Defined.

(** X5.  For version 3 (raw-schema mode off), the root collections
    [definitions], [parameters] and [responses] of the document give no
    section, whatever the document holds there: the three names are absent
    from the output, and so is every name other than [paths], [components],
    [operations], [express] and [handlers]. *)
Theorem version3_root_collections_ignored
    (E : LeafEmitters) (schema : value) (ctx : GlobalContext) :
  rawSchema ctx = false ->
  version ctx = 3%Z ->
  wellFormed E schema ctx = true ->
  exists out,
    transformAll E schema ctx = Ok out
    /\ forall k,
         assoc k out <> None ->
         In k (map lit ["paths"; "components"; "operations"; "express"; "handlers"]%string).
Proof.
  intros Hraw Hv Hwf.
  exists (trimmed (documentSections E schema ctx)).
  split; [apply transformAll_document;
          [exact Hwf | now apply shortCircuits_not_raw]|].
  intros k Hk. rewrite assoc_trimmed in Hk.
  assert (Hin : In k (map fst (documentSections E schema ctx))).
  { destruct (assoc k (documentSections E schema ctx)) eqn:Ha; [|now simpl in Hk].
    apply assoc_Some_In in Ha. apply in_map_iff. now exists (k, j). }
  unfold documentSections, versionSections, handlersSections in Hin.
  rewrite Hv in Hin. simpl Z.eqb in Hin. cbv iota in Hin.
  destruct (registryOf E schema ctx); simpl in Hin |- *; tauto.
Qed.

Lemma version3_root_collections_ignored_witness :
  exists out,
    transformAll Sample.emitters Sample.mixedDocument (Sample.context 3 false) = Ok out
    /\ forall k,
         assoc k out <> None ->
         In k (map lit ["paths"; "components"; "operations"; "express"; "handlers"]%string).
Proof.
  apply (version3_root_collections_ignored Sample.emitters Sample.mixedDocument
           (Sample.context 3 false)); reflexivity.
Defined.

(** X6.  The [operations] section is the trimmed concatenation, over the
    identifiers of the registry in their order, of one entry per
    identifier: the comment of the operation's description when the
    operation has one, then the entry named by the quoted identifier with
    the read-only modifier, whose body is the operation-type rendering in
    the caller's context with [pathItem] replaced by the owning Path Item
    and [globalParameters] by [components.parameters] when the document has
    components with parameters, and by the root [parameters] otherwise. *)
Theorem operations_section
    (E : LeafEmitters) (schema : value) (ctx : GlobalContext) :
  shortCircuits ctx = false ->
  wellFormed E schema ctx = true ->
  let operations := registryOf E schema ctx in
  let readonly := tsReadonly E (immutableTypes ctx) in
  let components := prop schema "components" in
  let pool :=
    if truthy components && truthy (prop components "parameters")
    then prop components "parameters"
    else prop schema "parameters" in
  let entry (id : jsstring) (e : RegistryEntry) :=
    let description := prop (operation e) "description" in
    (if truthy description then comment E description else [])
    ++ lit "  " ++ readonly ++ dquote ++ id ++ dquote ++ lit ": {" ++ nl ++ lit "    "
    ++ transformOperationObj E (operation e)
         {| version := version ctx;
            immutableTypes := immutableTypes ctx;
            rawSchema := rawSchema ctx;
            required := required ctx;
            globalParameters := pool;
            ctx_pathItem := pathItem e;
            additionalOptions := additionalOptions ctx |}
    ++ nl ++ lit "  }" ++ nl in
  exists out,
    transformAll E schema ctx = Ok out
    /\ assoc (lit "operations") out
       = Some (trim
           (flat_map (fun id => match assoc id operations with
                                | Some e => entry id e
                                | None => []
                                end)
                     (map fst operations)))
    /\ (NoDup (map fst operations) ->
        assoc (lit "operations") out
        = Some (trim (flat_map (fun ie => entry (fst ie) (snd ie)) operations))).
Proof.
  intros Hraw Hwf operations readonly components pool entry.
  assert (Hentry : forall id e, operationText E schema ctx id e = entry id e).
  { intros id e. unfold operationText, operationContext.
    rewrite globalParams_cases. reflexivity. }
  exists (trimmed (documentSections E schema ctx)).
  split; [now apply transformAll_document|].
  rewrite assoc_trimmed, documentSections_operations. unfold operationsText.
  fold operations. split.
  - simpl option_map. do 2 f_equal. unfold perOperation.
    apply flat_map_ext. intros id. destruct (assoc id operations); [apply Hentry | reflexivity].
  - intros Hnd. rewrite (perOperation_entries _ _ Hnd).
    simpl option_map. do 2 f_equal. apply flat_map_ext. intros [id e]. apply Hentry.
Qed.

Lemma operations_section_witness :
  exists out,
    transformAll Sample.probingEmitters Sample.pooledDocument (Sample.context 2 false)
    = Ok out
    /\ assoc (lit "operations") out
       = Some (trim (operationEntry [] (lit "getPets")
                       (lit "item get; pool limit;" ++ nl))).
Proof.
  destruct (operations_section Sample.probingEmitters Sample.pooledDocument
              (Sample.context 2 false) eq_refl eq_refl)
    as (out & Hrun & Hoperations & _).
  exists out. split; [exact Hrun | exact Hoperations].
Defined.

Lemma versionSections_names (E : LeafEmitters) (schema : value) (ctx : GlobalContext) :
  map fst (versionSections E schema ctx) = versionNames schema ctx.
Proof.
  unfold versionSections, versionNames.
  destruct (version ctx =? 2)%Z; [|now destruct (version ctx =? 3)%Z].
  rewrite !map_app, !sectionIf_keys. simpl filter.
  destruct (truthy (prop schema "definitions"));
    destruct (truthy (prop schema "parameters"));
    destruct (truthy (prop schema "responses")); reflexivity.
Qed.

(** X7.  The names of the output come in a fixed order: [paths] first, then
    the sections of the version ([definitions], [parameters], [responses]
    for version 2, each only when the document has the collection;
    [components] for version 3; none for another version), then
    [operations], then [express], and last [handlers] when the registry is
    not empty. *)
Theorem section_order
    (E : LeafEmitters) (schema : value) (ctx : GlobalContext) :
  shortCircuits ctx = false ->
  wellFormed E schema ctx = true ->
  exists out,
    transformAll E schema ctx = Ok out
    /\ map fst out
       = lit "paths" :: versionNames schema ctx
         ++ [lit "operations"; lit "express"]
         ++ match registryOf E schema ctx with
            | [] => []
            | _ :: _ => [lit "handlers"]
            end.
Proof.
  intros Hraw Hwf.
  exists (trimmed (documentSections E schema ctx)).
  split; [now apply transformAll_document|].
  rewrite trimmed_keys. unfold documentSections, handlersSections.
  cbn [map fst]. rewrite !map_app, versionSections_names.
  now destruct (registryOf E schema ctx).
Qed.

Lemma section_order_witness :
  exists out,
    transformAll Sample.emitters Sample.mixedDocument (Sample.context 2 false) = Ok out
    /\ map fst out
       = [lit "paths"; lit "definitions"; lit "parameters"; lit "operations";
          lit "express"].
Proof.
  apply (section_order Sample.emitters Sample.mixedDocument (Sample.context 2 false));
    reflexivity.
Defined.

(* ================================================================== *)
(** ** Further properties: the cleanup *)
(* ================================================================== *)

Lemma trimStart_split (s : jsstring) :
  exists a, whitespace a /\ s = a ++ trimStart s.
Proof.
  induction s as [|c s (a & Ha & IH)]; simpl.
  - now exists [].
  - destruct (is_whitespace c) eqn:Hc.
    + exists (c :: a). split; [unfold whitespace; simpl; now rewrite Hc|].
      simpl. now rewrite <- IH.
    + now exists [].
Qed.

Lemma whitespace_rev (a : jsstring) : whitespace a -> whitespace (rev a).
Proof.
  unfold whitespace. rewrite !forallb_forall. intros H x Hx.
  apply H. now apply in_rev.
Qed.

Lemma trimEnd_split (s : jsstring) :
  exists b, whitespace b /\ s = trimEnd s ++ b.
Proof.
  unfold trimEnd. destruct (trimStart_split (rev s)) as (a & Ha & Hs).
  exists (rev a). split; [now apply whitespace_rev|].
  rewrite <- rev_app_distr, <- Hs. now rewrite rev_involutive.
Qed.

Lemma trim_split (s : jsstring) :
  exists a b, whitespace a /\ whitespace b /\ s = a ++ trim s ++ b.
Proof.
  destruct (trimStart_split s) as (a & Ha & Hs).
  destruct (trimEnd_split (trimStart s)) as (b & Hb & Ht).
  exists a, b. repeat split; try assumption.
  unfold trim. now rewrite <- Ht.
Qed.

Lemma trimStart_fixed (s : jsstring) : no_leading_ws s -> trimStart s = s.
Proof. destruct s as [|c s]; simpl; [reflexivity | now intros ->]. Qed.

Lemma trim_fixed (s : jsstring) :
  no_leading_ws s -> no_trailing_ws s -> trim s = s.
Proof.
  intros Hl Ht. unfold trim, trimEnd. rewrite (trimStart_fixed s Hl).
  rewrite (trimStart_fixed (rev s) Ht). apply rev_involutive.
Qed.

Lemma trim_idempotent (s : jsstring) : trim (trim s) = trim s.
Proof. apply trim_fixed; [apply trim_no_leading | apply trim_no_trailing]. Qed.

Lemma trimmed_idempotent (out : Output) : trimmed (trimmed out) = trimmed out.
Proof.
  unfold trimmed. rewrite map_map. apply map_ext. intros [k v]. simpl.
  now rewrite trim_idempotent.
Qed.

(** X8.  The cleanup loop keeps the names of the record and their order,
    and takes from every value nothing but whitespace at its two ends: the
    old value is the new one between two runs of whitespace, and the new one
    neither starts nor ends with whitespace.  Running the loop again changes
    nothing. *)
Theorem cleanup_strips_only_whitespace (out : Output) :
  distinctNames out ->
  exists out',
    cleanup out = Ok out'
    /\ map fst out' = map fst out
    /\ Forall2 (fun old new : jsstring * jsstring =>
                  fst new = fst old
                  /\ no_leading_ws (snd new) /\ no_trailing_ws (snd new)
                  /\ exists a b,
                       whitespace a /\ whitespace b
                       /\ snd old = a ++ snd new ++ b)
               out out'
    /\ cleanup out' = Ok out'.
Proof.
  intros Hd. exists (trimmed out).
  split; [now apply cleanup_spec|].
  split; [apply trimmed_keys|]. split.
  - clear Hd. induction out as [|[k v] out IH]; simpl; constructor; [|exact IH].
    simpl. split; [reflexivity|].
    split; [apply trim_no_leading|]. split; [apply trim_no_trailing|].
    apply trim_split.
  - rewrite cleanup_spec by (unfold distinctNames; now rewrite trimmed_keys).
    now rewrite trimmed_idempotent.
Qed.

Lemma cleanup_strips_only_whitespace_witness :
  exists out',
    cleanup [(lit "paths", lit "  a b " ++ nl); (lit "express", [])] = Ok out'
    /\ map fst out' = [lit "paths"; lit "express"]
    /\ Forall2 (fun old new : jsstring * jsstring =>
                  fst new = fst old
                  /\ no_leading_ws (snd new) /\ no_trailing_ws (snd new)
                  /\ exists a b,
                       whitespace a /\ whitespace b
                       /\ snd old = a ++ snd new ++ b)
               [(lit "paths", lit "  a b " ++ nl); (lit "express", [])] out'
    /\ cleanup out' = Ok out'.
Proof.
  apply (cleanup_strips_only_whitespace
           [(lit "paths", lit "  a b " ++ nl); (lit "express", [])]).
  unfold distinctNames. repeat constructor; simpl; intuition discriminate.
Defined.

(* ================================================================== *)
(** ** Further properties: [transformSchema] *)
(* ================================================================== *)



(** X9.  [transformSchema] never throws, whatever the document: a document
    that is not there ([undefined], [null], [false], [0], the empty string)
    gives the empty record, and a document that is there is only read
    through property accesses that cannot fail. *)
Theorem transformSchema_never_throws
    (T : SectionTransformers) (schema : value) (ctx : GlobalContext) :
  (exists out, transformSchema T schema ctx = Ok out)
  /\ (truthy schema = false -> transformSchema T schema ctx = Ok []).
Proof.
  split.
  - destruct (truthy schema) eqn:Ht.
    + eexists. apply (transformSchema_runs T schema ctx Ht).
    + exists []. unfold transformSchema. now rewrite Ht.
  - intros Ht. unfold transformSchema. now rewrite Ht.
Qed.

Lemma transformSchema_never_throws_witness :
  (exists out, transformSchema Sample.transformers VNull (Sample.context 3 false) = Ok out)
  /\ transformSchema Sample.transformers VNull (Sample.context 3 false) = Ok [].
Proof.
  destruct (transformSchema_never_throws Sample.transformers VNull
              (Sample.context 3 false)) as [Hruns Hempty].
  split; [exact Hruns | exact (Hempty eq_refl)].
Defined.



(* ================================================================== *)
(** ** Further properties: what the engine reads of the document *)
(* ================================================================== *)

Section SameMembers.

Variable E : LeafEmitters.
Variables s1 s2 : value.
Variable ctx : GlobalContext.
Hypothesis same : sameMembers s1 s2.

Lemma get_agree (name : string) :
  In name documentMembers -> get s1 name = get s2 name.
Proof.
  destruct same as (H1 & H2 & Hp). intros Hin.
  now rewrite (get_ok _ name H1), (get_ok _ name H2), (Hp name Hin).
Qed.

Lemma globalParametersOf_agree : globalParametersOf s1 = globalParametersOf s2.
Proof.
  destruct same as (H1 & H2 & Hp).
  rewrite (globalParametersOf_ok _ H1), (globalParametersOf_ok _ H2).
  unfold globalParams.
  now rewrite (Hp "components"%string), (Hp "parameters"%string) by (simpl; tauto).
Qed.

Ltac to_other :=
  pose proof (get_agree "paths" ltac:(simpl; tauto)) as Hpaths;
  pose proof (get_agree "components" ltac:(simpl; tauto)) as Hcomponents;
  pose proof (get_agree "parameters" ltac:(simpl; tauto)) as Hparameters;
  pose proof (get_agree "definitions" ltac:(simpl; tauto)) as Hdefinitions;
  pose proof (get_agree "responses" ltac:(simpl; tauto)) as Hresponses;
  pose proof globalParametersOf_agree as Hglobal;
  repeat (rewrite ?Hpaths, ?Hcomponents, ?Hparameters, ?Hdefinitions, ?Hresponses,
            ?Hglobal;
          first [ reflexivity
                | apply bind_cong; [|intro]
                | apply for_of_ext; intros
                | match goal with
                  | |- (if ?c then _ else _) = (if ?c then _ else _) => destruct c
                  | |- (let (_, _) := ?p in _) = (let (_, _) := ?p in _) => destruct p
                  | |- (let (_, _) := ?x in _) _ = (let (_, _) := ?x in _) _ => destruct x
                  end ]).

Lemma pathsSection_agree (operations : registry) (out : Output) :
  pathsSection E s1 ctx operations out = pathsSection E s2 ctx operations out.
Proof. unfold pathsSection. to_other. Qed.

Lemma versionSwitch_agree (readonly : jsstring) (out : Output) :
  versionSwitch E readonly s1 ctx out = versionSwitch E readonly s2 ctx out.
Proof. unfold versionSwitch, version2, version3. to_other. Qed.

Lemma operationsSection_agree (readonly : jsstring) (operations : registry)
    (out : Output) :
  operationsSection E readonly s1 ctx operations out
  = operationsSection E readonly s2 ctx operations out.
Proof. unfold operationsSection. to_other. Qed.

Lemma expressSection_agree (operations : registry) (out : Output) :
  expressSection E s1 ctx operations out = expressSection E s2 ctx operations out.
Proof. unfold expressSection, handlersSection. to_other. Qed.

End SameMembers.

(** X11.  Full-document processing reads the document only through its
    members [paths], [components], [parameters], [definitions] and
    [responses]: two documents that agree on these five give the same
    output (or the same failure), whatever else they hold ([info],
    [servers], [webhooks], [security], ...). *)
Theorem only_five_members_read
    (E : LeafEmitters) (s1 s2 : value) (ctx : GlobalContext) :
  shortCircuits ctx = false ->
  sameMembers s1 s2 ->
  transformAll E s1 ctx = transformAll E s2 ctx.
Proof.
  intros Hraw Hsame. pose proof Hsame as (H1 & H2 & _).
  unfold transformAll.
  rewrite (rawSchemaMode_falls_through E s1 ctx H1 Hraw),
    (rawSchemaMode_falls_through E s2 ctx H2 Hraw), !bind_Ok.
  rewrite (pathsSection_agree E s1 s2 ctx Hsame).
  apply bind_cong; [reflexivity|]. intros [out operations].
  rewrite (versionSwitch_agree E s1 s2 ctx Hsame).
  apply bind_cong; [reflexivity|]. intros out1.
  rewrite (operationsSection_agree E s1 s2 ctx Hsame).
  apply bind_cong; [reflexivity|]. intros out2.
  now rewrite (expressSection_agree E s1 s2 ctx Hsame).
Qed.

Lemma only_five_members_read_witness :
  transformAll Sample.emitters Sample.orderedDocument (Sample.context 3 false)
  = transformAll Sample.emitters Sample.orderedDocument' (Sample.context 3 false).
Proof.
  apply (only_five_members_read Sample.emitters Sample.orderedDocument
           Sample.orderedDocument' (Sample.context 3 false)).
  - reflexivity.
  - repeat split.
    intros name [<-|[<-|[<-|[<-|[<-|[]]]]]]; reflexivity.
Defined.

(* ================================================================== *)
(** ** Further properties: handlers of Path Items in canonical order *)
(* ================================================================== *)

Lemma flat_map_map {A B C} (f : B -> list C) (g : A -> B) (l : list A) :
  flat_map f (map g l) = flat_map (fun x => f (g x)) l.
Proof. induction l as [|x l IH]; simpl; [reflexivity | now rewrite IH]. Qed.

Lemma flat_map_agree {A B} (f g : A -> list B) (l : list A) :
  (forall x, In x l -> f x = g x) -> flat_map f l = flat_map g l.
Proof.
  induction l as [|x l IH]; intros H; simpl; [reflexivity|].
  rewrite (H x) by now left. rewrite IH; [reflexivity|].
  intros y Hy. apply H. now right.
Qed.

Lemma existsb_jseqb_false (k : jsstring) (l : list jsstring) :
  existsb (jseqb k) l = false -> ~ In k l.
Proof.
  intros H Hin.
  assert (existsb (jseqb k) l = true); [|congruence].
  apply existsb_exists. exists k. split; [exact Hin | apply jseqb_refl].
Qed.

Lemma handlerMembers_canonical (E : LeafEmitters) (path : jsstring) (methods : value) :
  canonicalItem methods ->
  handlerMembers E path methods = handlerMembersCanonical E path methods.
Proof.
  intros [Hnd Horder]. unfold handlerMembers, handlerMembersCanonical.
  transitivity
    (flat_map (fun method =>
                 match assoc method (entriesOf methods) with
                 | Some op => handlersMember method (getOperationId E op method path)
                 | None => []
                 end)
              (filter (fun m => existsb (jseqb m) (keysOf methods)) httpMethods)).
  - rewrite <- Horder, flat_map_map. apply flat_map_agree.
    intros [method op] Hin. apply filter_In in Hin as [Hin _]. simpl.
    now rewrite (assoc_distinct method op (entriesOf methods) Hnd Hin).
  - rewrite flat_map_filter. apply flat_map_agree. intros m _.
    destruct (existsb (jseqb m) (keysOf methods)) eqn:Hm; [reflexivity|].
    apply existsb_jseqb_false in Hm. apply assoc_None in Hm. now rewrite Hm.
Qed.

(** X12.  When every Path Item of the document has distinct keys and lists
    its HTTP methods in the order get, put, post, delete, options, head,
    patch, trace, the [handlers] section is the canonical enumeration: for
    every path in document order, one member per method of the closed set
    that the Path Item has, in the order of the set. *)
Theorem handlers_canonical_when_ordered
    (E : LeafEmitters) (schema : value) (ctx : GlobalContext) :
  shortCircuits ctx = false ->
  wellFormed E schema ctx = true ->
  registryOf E schema ctx <> [] ->
  Forall (fun pm => canonicalItem (snd pm)) (entriesOf (prop schema "paths")) ->
  exists out,
    transformAll E schema ctx = Ok out
    /\ assoc (lit "handlers") out = Some (trim (handlersSpecified E schema)).
Proof.
  intros Hraw Hwf Hreg Hcanonical.
  exists (trimmed (documentSections E schema ctx)).
  split; [now apply transformAll_document|].
  rewrite assoc_trimmed, documentSections_handlers.
  destruct (registryOf E schema ctx); [contradiction|].
  simpl option_map. do 2 f_equal.
  unfold handlersText, handlersSpecified. apply flat_map_agree.
  intros [path methods] Hin. unfold handlersEntry. cbn [fst snd].
  rewrite Forall_forall in Hcanonical.
  now rewrite (handlerMembers_canonical E path methods (Hcanonical _ Hin)).
Qed.

Lemma handlers_canonical_when_ordered_witness :
  exists out,
    transformAll Sample.emitters Sample.orderedDocument (Sample.context 3 false) = Ok out
    /\ assoc (lit "handlers") out
       = Some (trim (handlersSpecified Sample.emitters Sample.orderedDocument)).
Proof.
  apply (handlers_canonical_when_ordered Sample.emitters Sample.orderedDocument
           (Sample.context 3 false)).
  - reflexivity.
  - reflexivity.
  - vm_compute. discriminate.
  - repeat constructor; simpl; intuition discriminate.
Defined.

(* ================================================================== *)
(** ** Further properties: raw-schema mode, the read-only modifier *)
(* ================================================================== *)

(** X13 (error behaviour).  When the raw-schema block returns ([rawSchema]
    set, version 2 or 3), [transformAll] throws exactly on an input that is
    [undefined] or [null]; every other input, an array, a string or a number
    as well as an object, gives the single section. *)
Theorem raw_schema_throws_iff_nullish
    (E : LeafEmitters) (schema : value) (ctx : GlobalContext) :
  shortCircuits ctx = true ->
  (transformAll E schema ctx = TypeError <-> nullish schema = true).
Proof.
  intros Hraw. unfold shortCircuits in Hraw.
  apply andb_true_iff in Hraw as [Hraw Hv]. split.
  - intros Hthrow. destruct (nullish schema) eqn:Hs; [reflexivity|].
    unfold transformAll, rawSchemaMode in Hthrow.
    rewrite Hraw, (keys_ok _ Hs), bind_Ok in Hthrow.
    destruct (version ctx =? 2)%Z; [discriminate|].
    destruct (version ctx =? 3)%Z; discriminate.
  - apply transformAll_nullish.
Qed.

Lemma raw_schema_throws_iff_nullish_witness :
  transformAll Sample.emitters (VArr [VNull]) (Sample.context 3 true) = TypeError
  <-> nullish (VArr [VNull]) = true.
Proof.
  apply (raw_schema_throws_iff_nullish Sample.emitters (VArr [VNull])
           (Sample.context 3 true)).
  reflexivity.
Defined.



(** X15.  [transformSchema] reads the document only through its members
    [paths], [webhooks] and [components]: two documents that are there and
    agree on these three give the same output. *)
Theorem transformSchema_reads_three_members
    (T : SectionTransformers) (s1 s2 : value) (ctx : GlobalContext) :
  truthy s1 = true ->
  truthy s2 = true ->
  prop s1 "paths" = prop s2 "paths" ->
  prop s1 "webhooks" = prop s2 "webhooks" ->
  prop s1 "components" = prop s2 "components" ->
  transformSchema T s1 ctx = transformSchema T s2 ctx.
Proof.
  intros H1 H2 Hp Hw Hc.
  rewrite (transformSchema_runs T s1 ctx H1), (transformSchema_runs T s2 ctx H2).
  now rewrite Hp, Hw, Hc.
Qed.

Lemma transformSchema_reads_three_members_witness :
  transformSchema Sample.transformers Sample.orderedDocument (Sample.context 3 false)
  = transformSchema Sample.transformers Sample.orderedDocument' (Sample.context 3 false).
Proof.
  apply (transformSchema_reads_three_members Sample.transformers Sample.orderedDocument
           Sample.orderedDocument' (Sample.context 3 false)); reflexivity.
Defined.
